(** * cinder: backup API, quota-set controller, volume manager and LVM driver

    A shallow embedding of

    - [cinder/backup/api.py]          (module [BackupAPI]),
    - [cinder/api/contrib/quotas.py]  (module [QuotaSets]),

    and, for the behaviour that [cinder/tests/test_volume.py] exercises but
    whose implementation lives in [cinder/volume/manager.py] and
    [cinder/volume/drivers/lvm.py], models written from the specification
    (modules [VolumeManager] and [LVM]).

    Python values are modelled as they are used: statuses, hosts and ids are
    strings, sizes are [Z] (a backup's size may be [None]), database tables are
    finite maps keyed by id, and a request body is an association list in
    iteration order.  Database writes persist when an exception is raised
    afterwards, so every operation returns its outcome together with the
    final state. *)

From Stdlib Require Import ZArith String Ascii List Bool Lia DecimalString.
From stdpp Require Import base option list strings gmap.
Import ListNotations.

Local Open Scope string_scope.

(** ** Python strings *)

Module Py.

(** [s.partition(sep)] for a one-character separator: the part before the
    first occurrence, the separator, and the rest; [(s, '', '')] when the
    separator does not occur. *)
Fixpoint partition (sep : ascii) (s : string) : string * string * string :=
  match s with
  | EmptyString => (EmptyString, EmptyString, EmptyString)
  | String c rest =>
      if Ascii.eqb c sep then (EmptyString, String sep EmptyString, rest)
      else let '(h, m, t) := partition sep rest in (String c h, m, t)
  end.

(** [c in s]. *)
Fixpoint occurs (c : ascii) (s : string) : bool :=
  match s with
  | EmptyString => false
  | String d rest => Ascii.eqb d c || occurs c rest
  end.

(** [s.split(sep)] for a one-character separator. *)
Fixpoint split (sep : ascii) (s : string) : list string :=
  match s with
  | EmptyString => [EmptyString]
  | String c rest =>
      if Ascii.eqb c sep then EmptyString :: split sep rest
      else match split sep rest with
           | [] => [String c EmptyString]
           | f :: fs => String c f :: fs
           end
  end.

(** ['%d' % z]. *)
Definition fmt_d (z : Z) : string :=
  DecimalString.NilZero.string_of_int (Z.to_int z).

End Py.

(** ** Exceptions *)

Inductive exn : Type :=
| PolicyNotAuthorized (action : string)
| BackupNotFound (backup_id : string)
| VolumeNotFound (volume_id : string)
| InvalidBackup (reason : string)
| InvalidVolume (reason : string)
| InvalidInput (reason : string)
| ServiceNotFound (service_id : string)
| ProjectQuotaNotFound (project_id : string)
| AdminRequired
| NotAuthorized
| HTTPBadRequest (explanation : string)
| HTTPForbidden
| InvalidVolumeAttachMode (mode volume_id : string)
| VolumeIsBusy (volume_name : string)
| VolumeAttached (volume_id : string)
| OverQuota
| CinderException (message : string)
| TypeError.

(** ** Records of the store *)

Record volume : Type := Volume {
  vol_id : string;
  vol_status : string;
  vol_size : Z;
  vol_host : string;
  vol_availability_zone : string
}.

Record backup : Type := Backup {
  bk_id : string;
  bk_user_id : string;
  bk_project_id : string;
  bk_display_name : string;
  bk_display_description : string;
  bk_volume_id : string;
  bk_status : string;
  bk_container : option string;
  bk_size : option Z;
  bk_host : string
}.

Record service : Type := Service {
  srv_topic : string;
  srv_host : string;
  srv_availability_zone : string;
  srv_disabled : bool;
  srv_heartbeat : Z
}.

Record RequestContext : Type := MkContext {
  user_id : string;
  project_id : string;
  is_admin : bool
}.

Record DB : Type := Store {
  volumes : gmap string volume;
  backups : gmap string backup;
  services : list service
}.

(** Messages handed to the backup RPC layer, and the effects an API call
    performs, in the order it performs them. *)
Inductive rpc_msg : Type :=
| CreateBackup (backup_id volume_id : string)
| RestoreBackup (backup_id volume_id : string)
| DeleteBackup (backup_id : string).

Inductive event : Type :=
| EvVolumeUpdate (volume_id status : string)
| EvBackupUpdate (backup_id status : string)
| EvBackupCreate (b : backup)
| EvVolumeCreate (size : Z) (name description : string)
| EvSleep (seconds : nat)
| EvCast (host : string) (msg : rpc_msg).

Record World : Type := MkWorld {
  db : DB;
  clock : nat;
  trace : list event
}.

(** The collaborators of the backup API that are not part of the sources:
    the policy engine, the service liveness check, configuration, id
    generation, the volume API's [create], and the rest of the system.  The
    other green threads are given the store when this one sleeps:
    [others n] is what they do to it during the sleep that starts at
    second [n]. *)
Class Collaborators : Type := {
  policy_enforce : RequestContext -> string -> bool;
  service_is_up : service -> bool;
  backup_topic : string;
  new_backup_id : DB -> string;
  volume_api_create :
    RequestContext -> Z -> string -> string -> DB -> (exn + volume) * DB;
  others : nat -> DB -> DB
}.

(** ** The monad of API calls

    [None] is a computation that ran out of fuel; [Some (r, w)] is a
    computation that returned ([inr]) or raised ([inl]) in world [w]. *)

Definition Result (A : Type) : Type := (exn + A) * World.
Definition M (A : Type) : Type := World -> option (Result A).

Definition ret {A} (a : A) : M A := fun w => Some (inr a, w).
Definition raise {A} (e : exn) : M A := fun w => Some (inl e, w).
Definition bind {A B} (m : M A) (k : A -> M B) : M B :=
  fun w =>
    match m w with
    | None => None
    | Some (inl e, w') => Some (inl e, w')
    | Some (inr a, w') => k a w'
    end.
Definition modify (f : World -> World) : M unit := fun w => Some (inr tt, f w).
Definition gets {A} (f : World -> A) : M A := fun w => Some (inr (f w), w).
Definition diverge {A} : M A := fun _ => None.

Declare Scope py_scope.
Delimit Scope py_scope with py.
Notation "'let!' x ':=' m 'in' k" := (bind m (fun x => k))
  (at level 10, x name, m at level 100, k at level 200) : py_scope.
Notation "m ;; k" := (bind m (fun _ => k))
  (at level 100, k at level 200, right associativity) : py_scope.
Notation "'raise_if' c 'then' e ;; k" := (if c then raise e else k)
  (at level 10, c at level 99, e at level 99, k at level 200) : py_scope.

Definition emit (e : event) : M unit :=
  modify (fun w => MkWorld (db w) (clock w) (trace w ++ [e])).
Definition set_db (d : DB) : M unit :=
  modify (fun w => MkWorld d (clock w) (trace w)).

Definition str_ne (a b : string) : bool := negb (String.eqb a b).

(** ** The record store and the other collaborators, as the API uses them *)

Module Db.

Definition set_volume_status (status : string) (v : volume) : volume :=
  Volume (vol_id v) status (vol_size v) (vol_host v)
         (vol_availability_zone v).

Definition set_backup_status (status : string) (b : backup) : backup :=
  Backup (bk_id b) (bk_user_id b) (bk_project_id b) (bk_display_name b)
         (bk_display_description b) (bk_volume_id b) status
         (bk_container b) (bk_size b) (bk_host b).

Definition put_volume (v : volume) (d : DB) : DB :=
  Store (<[vol_id v := v]> (volumes d)) (backups d) (services d).

Definition put_backup (b : backup) (d : DB) : DB :=
  Store (volumes d) (<[bk_id b := b]> (backups d)) (services d).

Local Open Scope py_scope.

(** Modelled from the spec: [db.volume_get], the record store's point
    lookup by id (cinder/db is not among the sources). *)
Definition volume_get (volume_id : string) : M volume :=
  let! d := gets db in
  match volumes d !! volume_id with
  | Some v => ret v
  | None => raise (VolumeNotFound volume_id)
  end.

(** Modelled from the spec: [db.volume_update] with [{'status': status}],
    the record store's field-level update. *)
Definition volume_update (volume_id status : string) : M unit :=
  let! d := gets db in
  match volumes d !! volume_id with
  | Some v =>
      set_db (Store (<[volume_id := set_volume_status status v]> (volumes d))
                    (backups d) (services d)) ;;
      emit (EvVolumeUpdate volume_id status)
  | None => raise (VolumeNotFound volume_id)
  end.

(** Modelled from the spec: [db.backup_get]. *)
Definition backup_get (backup_id : string) : M backup :=
  let! d := gets db in
  match backups d !! backup_id with
  | Some b => ret b
  | None => raise (BackupNotFound backup_id)
  end.

(** Modelled from the spec: [db.backup_update] with [{'status': status}]. *)
Definition backup_update (backup_id status : string) : M unit :=
  let! d := gets db in
  match backups d !! backup_id with
  | Some b =>
      set_db (Store (volumes d)
                    (<[backup_id := set_backup_status status b]> (backups d))
                    (services d)) ;;
      emit (EvBackupUpdate backup_id status)
  | None => raise (BackupNotFound backup_id)
  end.

(** Modelled from the spec: [db.backup_create], the record store's
    creation; the row gets a generated id and the given options. *)
Definition backup_create `{Collaborators}
    (options : string -> backup) : M backup :=
  let! d := gets db in
  let b := options (new_backup_id d) in
  set_db (put_backup b d) ;;
  emit (EvBackupCreate b) ;;
  ret b.

(** Modelled from the spec: [db.service_get_all_by_topic], the service
    records registered under a topic. *)
Definition service_get_all_by_topic (topic : string) : M (list service) :=
  let! d := gets db in
  ret (List.filter (fun srv => String.eqb (srv_topic srv) topic) (services d)).

End Db.

(** ** cinder/backup/api.py *)

Module BackupAPI.
Section Api.
Context `{Collaborators}.
Local Open Scope py_scope.

Record restore_reply : Type := Reply {
  reply_backup_id : string;
  reply_volume_id : string
}.

(** [check_policy(context, action)]: enforce ['backup:%s' % action]. *)
Definition check_policy (context : RequestContext) (action : string)
  : M unit :=
  let _action := String.append "backup:" action in
  raise_if negb (policy_enforce context _action)
    then PolicyNotAuthorized _action ;;
  ret tt.

(** Modelled from the spec: [self.volume_api.get(context, volume_id)]
    (cinder/volume/api.py is not among the sources), a point lookup of the
    volume by id in the record store. *)
Definition volume_api_get (context : RequestContext) (volume_id : string)
  : M volume :=
  Db.volume_get volume_id.

(** [self.volume_api.create(context, size, name, description)]: the
    collaborator's [create], run on the store. *)
Definition volume_api_create_call (context : RequestContext) (size : Z)
    (name description : string) : M volume :=
  fun w =>
    let '(r, d) := volume_api_create context size name description (db w) in
    Some (r, MkWorld d (clock w)
               (trace w ++ [EvVolumeCreate size name description])).

(** [greenthread.sleep(seconds)]: this green thread yields and the others
    run; a second passes. *)
Definition greenthread_sleep (seconds : nat) : M unit :=
  modify (fun w => MkWorld (others (clock w) (db w)) (S (clock w))
                           (trace w ++ [EvSleep seconds])).

(** Modelled from the spec: [self.backup_rpcapi.<method>(context, host,
    ...)] (cinder/backup/rpcapi.py is not among the sources), a cast: it is
    addressed to [host], returns nothing and does not wait. *)
Definition backup_rpcapi (host : string) (msg : rpc_msg) : M unit :=
  emit (EvCast host msg).

(** [API.get] *)
Definition get (context : RequestContext) (backup_id : string) : M backup :=
  check_policy context "get" ;;
  let! rv := Db.backup_get backup_id in
  ret rv.

(** [API.delete] *)
Definition delete (context : RequestContext) (backup_id : string) : M unit :=
  check_policy context "delete" ;;
  let! backup := get context backup_id in
  raise_if negb (String.eqb (bk_status backup) "available"
                 || String.eqb (bk_status backup) "error")
    then InvalidBackup "Backup status must be available or error" ;;
  Db.backup_update backup_id "deleting" ;;
  backup_rpcapi (bk_host backup) (DeleteBackup (bk_id backup)).

(** The [for srv in services] loop of [_is_backup_service_enabled]. *)
Fixpoint any_service_matches (volume : volume) (volume_host : string)
    (services : list service) : bool :=
  match services with
  | [] => false
  | srv :: rest =>
      if String.eqb (srv_availability_zone srv) (vol_availability_zone volume)
         && String.eqb (srv_host srv) volume_host
         && negb (srv_disabled srv)
         && service_is_up srv
      then true
      else any_service_matches volume volume_host rest
  end.

(** [API._is_backup_service_enabled] *)
Definition _is_backup_service_enabled (volume : volume)
    (volume_host : string) : M bool :=
  let topic := backup_topic in
  let! services := Db.service_get_all_by_topic topic in
  ret (any_service_matches volume volume_host services).

(** [API.create] *)
Definition create (context : RequestContext) (name description : string)
    (volume_id : string) (container : option string)
    (availability_zone : option string) : M backup :=
  check_policy context "create" ;;
  let! volume := volume_api_get context volume_id in
  raise_if str_ne (vol_status volume) "available"
    then InvalidVolume "Volume to be backed up must be available" ;;
  let volume_host := (Py.partition "@" (vol_host volume)).1.1 in
  let! enabled := _is_backup_service_enabled volume volume_host in
  raise_if negb enabled then ServiceNotFound "cinder-backup" ;;
  Db.volume_update volume_id "backing-up" ;;
  let options := fun id =>
    Backup id (user_id context) (project_id context) name description
           volume_id "creating" container (Some (vol_size volume))
           volume_host in
  let! backup := Db.backup_create options in
  backup_rpcapi (bk_host backup) (CreateBackup (bk_id backup) volume_id) ;;
  ret backup.

(** The [while True] loop of [API.restore]: fetch the volume, leave the
    loop when its status is not ['creating'], otherwise sleep one second
    and go round again.  The source has no iteration limit; [fuel] bounds
    the number of iterations that are unfolded. *)
Fixpoint wait_while_creating (fuel : nat) (context : RequestContext)
    (volume_id : string) : M volume :=
  match fuel with
  | O => diverge
  | S fuel' =>
      let! volume := volume_api_get context volume_id in
      if str_ne (vol_status volume) "creating" then ret volume
      else greenthread_sleep 1 ;;
           wait_while_creating fuel' context volume_id
  end.

(** [API.restore] *)
Definition restore (fuel : nat) (context : RequestContext)
    (backup_id : string) (volume_id : option string) : M restore_reply :=
  check_policy context "restore" ;;
  let! backup := get context backup_id in
  raise_if str_ne (bk_status backup) "available"
    then InvalidBackup "Backup status must be available" ;;
  match bk_size backup with
  | None => raise (InvalidBackup "Backup to be restored has invalid size")
  | Some size =>
      let! target :=
        match volume_id with
        | None =>
            let name := String.append "restore_backup_" backup_id in
            let description := "auto-created_from_restore_from_backup" in
            let! volume :=
              volume_api_create_call context size name description in
            let volume_id := vol_id volume in
            let! volume := wait_while_creating fuel context volume_id in
            ret (volume, volume_id)
        | Some volume_id =>
            let! volume := volume_api_get context volume_id in
            let volume_size := vol_size volume in
            raise_if (volume_size <? size)%Z
              then InvalidVolume
                     (String.append "volume size "
                       (String.append (Py.fmt_d volume_size)
                         (String.append " is too small to restore backup of size "
                           (String.append (Py.fmt_d size) ".")))) ;;
            ret (volume, volume_id)
        end in
      let volume := target.1 in
      let volume_id := target.2 in
      raise_if str_ne (vol_status volume) "available"
        then InvalidVolume "Volume to be restored to must be available" ;;
      raise_if (size >? vol_size volume)%Z
        then InvalidVolume
               "Volume to be restored to is smaller than the backup to be restored" ;;
      Db.backup_update backup_id "restoring" ;;
      Db.volume_update volume_id "restoring-backup" ;;
      backup_rpcapi (bk_host backup)
                    (RestoreBackup (bk_id backup) volume_id) ;;
      ret (Reply backup_id volume_id)
  end.

(** The two halves of [restore] after its checks of the backup, named for
    the proofs: the [if volume_id is None: ... else: ...] block, which
    yields the volume and its id, and the rest of the function. *)
Definition restore_target (fuel : nat) (context : RequestContext)
    (backup_id : string) (size : Z) (volume_id : option string)
  : M (volume * string) :=
  match volume_id with
  | None =>
      let name := String.append "restore_backup_" backup_id in
      let description := "auto-created_from_restore_from_backup" in
      let! volume :=
        volume_api_create_call context size name description in
      let volume_id := vol_id volume in
      let! volume := wait_while_creating fuel context volume_id in
      ret (volume, volume_id)
  | Some volume_id =>
      let! volume := volume_api_get context volume_id in
      let volume_size := vol_size volume in
      raise_if (volume_size <? size)%Z
        then InvalidVolume
               (String.append "volume size "
                 (String.append (Py.fmt_d volume_size)
                   (String.append " is too small to restore backup of size "
                     (String.append (Py.fmt_d size) ".")))) ;;
      ret (volume, volume_id)
  end.

Definition restore_onto (backup_id : string) (backup : backup) (size : Z)
    (volume : volume) (volume_id : string) : M restore_reply :=
  raise_if str_ne (vol_status volume) "available"
    then InvalidVolume "Volume to be restored to must be available" ;;
  raise_if (size >? vol_size volume)%Z
    then InvalidVolume
           "Volume to be restored to is smaller than the backup to be restored" ;;
  Db.backup_update backup_id "restoring" ;;
  Db.volume_update volume_id "restoring-backup" ;;
  backup_rpcapi (bk_host backup)
                (RestoreBackup (bk_id backup) volume_id) ;;
  ret (Reply backup_id volume_id).

(** The world after one [greenthread.sleep(1)], after [k] of them, and
    what a poll of the loop sees in a world: the volume is there and its
    status is ['creating']. *)
Definition slept (w : World) : World :=
  MkWorld (others (clock w) (db w)) (S (clock w))
          (trace w ++ [EvSleep 1]).

Fixpoint slept_n (k : nat) (w : World) : World :=
  match k with
  | O => w
  | S k' => slept_n k' (slept w)
  end.

Definition still_creating (volume_id : string) (w : World) : bool :=
  match volumes (db w) !! volume_id with
  | Some v => String.eqb (vol_status v) "creating"
  | None => false
  end.

(** The world in which the volume API's [create] has returned. *)
Definition created_in (w : World) (size : Z) (backup_id : string) (d : DB)
  : World :=
  MkWorld d (clock w)
    (trace w ++ [EvVolumeCreate size
                   (String.append "restore_backup_" backup_id)
                   "auto-created_from_restore_from_backup"]).

End Api.
End BackupAPI.

(** ** cinder/api/contrib/quotas.py *)

Module QuotaSets.

(** The values a decoded JSON request body can hold.  [isinstance(v, int)]
    holds of machine integers and of booleans, not of [long]s. *)
Inductive pyval : Type :=
| PyInt (n : Z)
| PyBool (b : bool)
| PyLong (n : Z)
| PyFloat (repr : string)
| PyStr (s : string)
| PyNone.

Definition isinstance_int (v : pyval) : bool :=
  match v with
  | PyInt _ | PyBool _ => true
  | _ => false
  end.

(** The integer an [int] instance denotes in a comparison. *)
Definition int_value (v : pyval) : Z :=
  match v with
  | PyInt n => n
  | PyBool b => if b then 1 else 0
  | _ => 0
  end.

(** [int(v)] for the values on which it is used here. *)
Definition py_int (v : pyval) : exn + Z :=
  match v with
  | PyInt n | PyLong n => inr n
  | PyBool b => inr (if b then 1 else 0)%Z
  | _ => inl TypeError
  end.

(** The rows of the [quotas] table: [(project_id, resource) -> hard_limit]. *)
Abbreviation quota_table := (gmap (string * string) Z).

(** The collaborators of the controller: the extension authorizer, the
    registered quota resources ([key in QUOTAS]) and the quota engine's
    per-project view of the limits. *)
Class QuotaEngine : Type := {
  authorize : RequestContext -> string -> bool;
  resources : list string;
  get_project_quotas : RequestContext -> string -> quota_table ->
                       list (string * Z)
}.

(** Modelled from the spec: [db.quota_update] (cinder/db is not among the
    sources): an administrator's field-level update of an existing row;
    [AdminRequired] for any other context, [ProjectQuotaNotFound] when the
    project has no row for the resource. *)
Definition quota_update (context : RequestContext)
    (project_id resource : string) (limit : Z) (q : quota_table)
  : exn + quota_table :=
  if negb (is_admin context) then inl AdminRequired
  else match q !! (project_id, resource) with
       | None => inl (ProjectQuotaNotFound project_id)
       | Some _ => inr (<[(project_id, resource) := limit]> q)
       end.

(** Modelled from the spec: [db.quota_create], the record store's creation
    of a quota row, for an administrator. *)
Definition quota_create (context : RequestContext)
    (project_id resource : string) (limit : Z) (q : quota_table)
  : exn + quota_table :=
  if negb (is_admin context) then inl AdminRequired
  else inr (<[(project_id, resource) := limit]> q).

Section Controller.
Context `{QuotaEngine}.

(** [QuotaSetsController._validate_quota_limit] *)
Definition _validate_quota_limit (limit : pyval) : exn + unit :=
  if negb (isinstance_int limit) then
    inl (HTTPBadRequest "Quota limit must be specified as an integer value.")
  else if (int_value limit <? -1)%Z then
    inl (HTTPBadRequest "Quota limit must be -1 or greater.")
  else inr tt.

(** [key in QUOTAS] *)
Definition in_QUOTAS (key : string) : bool :=
  existsb (String.eqb key) resources.

(** [QuotaSetsController._get_quotas(context, id)], with [usages=False]. *)
Definition _get_quotas (context : RequestContext) (id : string)
    (q : quota_table) : list (string * Z) :=
  get_project_quotas context id q.

(** The body of the [for key in body['quota_set'].keys()] loop of
    [update], for one key. *)
Definition update_key (context : RequestContext) (project_id : string)
    (key : string) (limit : pyval) (q : quota_table) : exn + quota_table :=
  if in_QUOTAS key then
    match _validate_quota_limit limit with
    | inl e => inl e
    | inr _ =>
        match py_int limit with
        | inl e => inl e
        | inr value =>
            match quota_update context project_id key value q with
            | inr q' => inr q'
            | inl (ProjectQuotaNotFound _) =>
                quota_create context project_id key value q
            | inl AdminRequired => inl HTTPForbidden
            | inl e => inl e
            end
        end
    end
  else inr q.

(** The loop itself, over the keys in iteration order; the writes made for
    earlier keys stay when a later key raises. *)
Fixpoint update_keys (context : RequestContext) (project_id : string)
    (quota_set : list (string * pyval)) (q : quota_table)
  : (exn + unit) * quota_table :=
  match quota_set with
  | [] => (inr tt, q)
  | (key, limit) :: rest =>
      match update_key context project_id key limit q with
      | inl e => (inl e, q)
      | inr q' => update_keys context project_id rest q'
      end
  end.

(** [QuotaSetsController.update] *)
Definition update (context : RequestContext) (id : string)
    (quota_set : list (string * pyval)) (q : quota_table)
  : (exn + list (string * Z)) * quota_table :=
  if negb (authorize context "quotas:update") then (inl NotAuthorized, q)
  else
    let project_id := id in
    match update_keys context project_id quota_set q with
    | (inl e, q') => (inl e, q')
    | (inr _, q') => (inr (_get_quotas context id q'), q')
    end.

End Controller.
End QuotaSets.

(** ** The volume manager (cinder/volume/api.py, cinder/volume/manager.py)

    Neither file is among the sources; only their tests are.  The operations
    below are written from the specification's description of the volume
    state machine, in the two layers the tests call: the API layer, which
    validates and marks the record before it dispatches, and the manager,
    which drives the driver and settles the record. *)

Module VolumeManager.

Record vol : Type := Vol {
  status : string;
  attach_status : string;
  size : Z;
  instance_uuid : option string;
  attached_host : option string;
  mountpoint : option string;
  admin_metadata : list (string * string)
}.

(** Usage of the [gigabytes] resource of the volume's project; a limit of
    [-1] is unlimited. *)
Record usage : Type := Usage {
  limit : Z;
  in_use : Z;
  reserved : Z
}.

Record state : Type := State {
  vols : gmap string vol;
  gigabytes : usage
}.

(** What the driver does when it is called. *)
Inductive driver_outcome : Type :=
| DriverOk
| DriverRaises (e : exn).

Definition set_status (s : string) (v : vol) : vol :=
  Vol s (attach_status v) (size v) (instance_uuid v) (attached_host v)
      (mountpoint v) (admin_metadata v).

Definition set_size (n : Z) (v : vol) : vol :=
  Vol (status v) (attach_status v) n (instance_uuid v) (attached_host v)
      (mountpoint v) (admin_metadata v).

Definition put (volume_id : string) (v : vol) (s : state) : state :=
  State (<[volume_id := v]> (vols s)) (gigabytes s).

Definition set_usage (u : usage) (s : state) : state := State (vols s) u.

(** Admin metadata is an ordered key-value list: looking a key up, setting
    it (in place when present, appended otherwise) and removing it. *)
Fixpoint meta_get (key : string) (m : list (string * string))
  : option string :=
  match m with
  | [] => None
  | (k, v) :: rest => if String.eqb k key then Some v else meta_get key rest
  end.

Fixpoint meta_set (key value : string) (m : list (string * string))
  : list (string * string) :=
  match m with
  | [] => [(key, value)]
  | (k, v) :: rest =>
      if String.eqb k key then (k, value) :: rest
      else (k, v) :: meta_set key value rest
  end.

Definition meta_delete (key : string) (m : list (string * string))
  : list (string * string) :=
  List.filter (fun kv => negb (String.eqb kv.1 key)) m.

(** Modelled from the spec: the quota reservation engine's [reserve],
    [commit] and [rollback] (cinder/quota.py is not among the sources), for
    one resource.  [reserve] holds the delta
    provisionally and fails ([None], the engine's [OverQuota]) when usage
    plus reservations plus the delta would exceed a limit that is not
    [-1]. *)
Definition reserve (delta : Z) (u : usage) : option usage :=
  if (0 <=? limit u)%Z && (limit u <? in_use u + reserved u + delta)%Z
  then None
  else Some (Usage (limit u) (in_use u) (reserved u + delta)).

Definition commit (delta : Z) (u : usage) : usage :=
  Usage (limit u) (in_use u + delta) (reserved u - delta).

Definition rollback (delta : Z) (u : usage) : usage :=
  Usage (limit u) (in_use u) (reserved u - delta).

(** Modelled from the spec: [API.extend] of cinder/volume/api.py, which is
    not among the sources.  Only from
    [available] (else [InvalidVolume]); the target size must be strictly
    greater than the current one (else [InvalidInput]); the record is set
    to [extending] and the request is dispatched ([inr true]). *)
Definition api_extend (volume_id : string) (new_size : Z) (s : state)
  : (exn + bool) * state :=
  match vols s !! volume_id with
  | None => (inl (VolumeNotFound volume_id), s)
  | Some v =>
      if str_ne (status v) "available" then
        (inl (InvalidVolume "Volume status must be available to extend."), s)
      else if (new_size <=? size v)%Z then
        (inl (InvalidInput "New size for extend must be greater than current size."), s)
      else (inr true, put volume_id (set_status "extending" v) s)
  end.

(** Modelled from the spec: [VolumeManager.extend_volume] of
    cinder/volume/manager.py, which is not among the sources.  It reserves
    the incremental quota; on quota failure the record goes to
    [error_extending] with no size change; on driver failure it goes to
    [error_extending] with no size change and the reservation is rolled
    back; on success the new size is persisted, the status is [available]
    and the reservation is committed.  No failure is raised to the
    dispatcher. *)
Definition manager_extend_volume (driver_extend_volume : driver_outcome)
    (volume_id : string) (new_size : Z) (s : state) : (exn + unit) * state :=
  match vols s !! volume_id with
  | None => (inl (VolumeNotFound volume_id), s)
  | Some v =>
      let size_increase := (new_size - size v)%Z in
      match reserve size_increase (gigabytes s) with
      | None => (inr tt, put volume_id (set_status "error_extending" v) s)
      | Some held =>
          match driver_extend_volume with
          | DriverRaises _ =>
              (inr tt,
               set_usage (rollback size_increase held)
                 (put volume_id (set_status "error_extending" v) s))
          | DriverOk =>
              (inr tt,
               set_usage (commit size_increase held)
                 (put volume_id
                    (set_status "available" (set_size new_size v)) s))
          end
      end
  end.

(** [extend(volume, new_size)] end to end: the API call and, when it
    dispatched, the manager's handling of the cast. *)
Definition extend (driver_extend_volume : driver_outcome)
    (volume_id : string) (new_size : Z) (s : state) : (exn + unit) * state :=
  match api_extend volume_id new_size s with
  | (inl e, s') => (inl e, s')
  | (inr _, s') =>
      manager_extend_volume driver_extend_volume volume_id new_size s'
  end.

(** Modelled from the spec: [API.delete] of cinder/volume/api.py, which is
    not among the sources.  Without [force] it fails fast, with
    [InvalidVolume], unless the status is one of [available], [error],
    [error_restoring], [error_extending], [error_attaching]; it fails with
    [VolumeAttached] when the attach status is [attached], forced or not;
    it fails with [InvalidVolume] when the volume has a snapshot that is not
    deleted; otherwise it sets the status to [deleting] and dispatches the
    delete ([inr true]). *)
Definition deletable (status : string) : bool :=
  existsb (String.eqb status)
    ["available"; "error"; "error_restoring"; "error_extending";
     "error_attaching"].

Definition api_delete (force has_snapshots : bool) (volume_id : string)
    (s : state) : (exn + bool) * state :=
  match vols s !! volume_id with
  | None => (inl (VolumeNotFound volume_id), s)
  | Some v =>
      if negb force && negb (deletable (status v)) then
        (inl (InvalidVolume "Volume status must be available or error"), s)
      else if String.eqb (attach_status v) "attached" then
        (inl (VolumeAttached volume_id), s)
      else if has_snapshots then
        (inl (InvalidVolume "Volume still has snapshots"), s)
      else (inr true, put volume_id (set_status "deleting" v) s)
  end.

(** Modelled from the spec: [VolumeManager.delete_volume] of
    cinder/volume/manager.py, which is not among the sources, run on the
    dispatched delete.  A volume whose attach status is [attached] is
    refused with [VolumeAttached], nothing changed.  The driver's
    [VolumeIsBusy] is caught: the status goes back to [available] and the
    call returns [True]; any other driver exception leaves the status
    [error_deleting] and is raised again; on success the record is
    destroyed and its gigabytes are given back. *)
Definition manager_delete_volume (driver_delete_volume : driver_outcome)
    (volume_id : string) (s : state) : (exn + bool) * state :=
  match vols s !! volume_id with
  | None => (inl (VolumeNotFound volume_id), s)
  | Some v =>
      if String.eqb (attach_status v) "attached" then
        (inl (VolumeAttached volume_id), s)
      else
        match driver_delete_volume with
        | DriverRaises (VolumeIsBusy _) =>
            (inr true, put volume_id (set_status "available" v) s)
        | DriverRaises e =>
            (inl e, put volume_id (set_status "error_deleting" v) s)
        | DriverOk =>
            let u := gigabytes s in
            (inr true,
             State (delete volume_id (vols s))
                   (Usage (limit u) (in_use u - size v) (reserved u)))
        end
  end.

(** The host name as it is recorded: the tests attach to ['fake_host'] and
    read back ['fake-host']. *)
Definition sanitize_hostname (host : string) : string :=
  string_of_list_ascii
    (List.map (fun c => if Ascii.eqb c "_" then "-"%char else c)
              (list_ascii_of_string host)).

(** Modelled from the spec: [VolumeManager.attach_volume] of
    cinder/volume/manager.py, which is not among the sources.  It validates
    that the attach status is [detached] (else [InvalidVolume]) and that
    exactly one of instance and host is the target (else [InvalidInput]);
    it records the target and the requested mode in the admin metadata;
    [rw] on a volume whose [readonly] metadata is ['True'] fails with [InvalidVolumeAttachMode], with the attach status
    [detached] and the status [error_attaching]; a driver failure leaves
    [error_attaching] too; otherwise the volume is [in-use] and
    [attached]. *)
Definition manager_attach_volume (driver_attach_volume : driver_outcome)
    (volume_id : string) (instance : option string)
    (host_name : option string) (mount : string) (mode : string)
    (s : state) : (exn + unit) * state :=
  match vols s !! volume_id with
  | None => (inl (VolumeNotFound volume_id), s)
  | Some v =>
      if str_ne (attach_status v) "detached" then
        (inl (InvalidVolume "status must be available"), s)
      else
        match instance, host_name with
        | Some _, Some _ | None, None =>
            (inl (InvalidInput "Invalid request to attach volume"), s)
        | _, _ =>
            let host_name_sanitized := sanitize_hostname <$> host_name in
            let v1 :=
              Vol "attaching" (attach_status v) (size v) instance
                  host_name_sanitized (mountpoint v)
                  (meta_set "attached_mode" mode (admin_metadata v)) in
            if match meta_get "readonly" (admin_metadata v) with
               | Some "True" => String.eqb mode "rw"
               | _ => false
               end
            then
              (inl (InvalidVolumeAttachMode mode volume_id),
               put volume_id
                 (Vol "error_attaching" "detached" (size v1)
                      (instance_uuid v1) (attached_host v1) (mountpoint v1)
                      (admin_metadata v1)) s)
            else
              match driver_attach_volume with
              | DriverRaises e =>
                  (inl e, put volume_id (set_status "error_attaching" v1) s)
              | DriverOk =>
                  (inr tt,
                   put volume_id
                     (Vol "in-use" "attached" (size v1) (instance_uuid v1)
                          (attached_host v1) (Some mount)
                          (admin_metadata v1)) s)
              end
        end
  end.

(** Modelled from the spec: [VolumeManager.detach_volume] of
    cinder/volume/manager.py, which is not among the sources, the inverse: it
    clears mountpoint, instance and host, removes the [attached_mode]
    admin metadata, keeps [readonly], and returns to [available]. *)
Definition manager_detach_volume (volume_id : string) (s : state)
  : (exn + unit) * state :=
  match vols s !! volume_id with
  | None => (inl (VolumeNotFound volume_id), s)
  | Some v =>
      (inr tt,
       put volume_id
         (Vol "available" "detached" (size v) None None None
              (meta_delete "attached_mode" (admin_metadata v))) s)
  end.

End VolumeManager.

(** ** The LVM driver's migrate_volume (cinder/volume/drivers/lvm.py)

    The driver is not among the sources; its tests are.  The destination
    host advertises its backend as
    ['LVMVolumeDriver:<hostname>:<volume group>:<lvm type>:<mirrors>']. *)

Module LVM.

Record location : Type := Location {
  dest_type : string;
  dest_hostname : string;
  dest_vg : string;
  lvm_type : string;
  lvm_mirrors : Z
}.

Definition digit_value (c : ascii) : option Z :=
  let n := nat_of_ascii c in
  if (48 <=? n)%nat && (n <=? 57)%nat then Some (Z.of_nat (n - 48))
  else None.

Fixpoint digits_value (acc : Z) (s : string) : option Z :=
  match s with
  | EmptyString => Some acc
  | String c rest =>
      match digit_value c with
      | Some d => digits_value (10 * acc + d) rest
      | None => None
      end
  end.

(** [int(s)] for a decimal numeral with an optional sign. *)
Definition parse_int (s : string) : option Z :=
  match s with
  | EmptyString => None
  | String "-" (String _ _ as ds) => Z.opp <$> digits_value 0 ds
  | String "+" (String _ _ as ds) => digits_value 0 ds
  | String "-" EmptyString | String "+" EmptyString => None
  | ds => digits_value 0 ds
  end.

(** Modelled from the spec: the parsing of location info in
    cinder/volume/drivers/lvm.py, which is not among the sources; well
    formed are the five colon-separated fields above, the last one an
    integer. *)
Definition parse_location_info (info : string) : option location :=
  match Py.split ":" info with
  | [ty; hostname; vg; lvm; mirrors] =>
      match parse_int mirrors with
      | Some n => Some (Location ty hostname vg lvm n)
      | None => None
      end
  | _ => None
  end.

(** Modelled from the spec: [LVMVolumeDriver.migrate_volume(volume, host)]
    of cinder/volume/drivers/lvm.py, which is not among the sources.  It
    declines, with [(False, None)], when the volume is not
    [available], when the host has no location info, when the location
    info is malformed, and when the driver class or the host differ from
    its own; on an exact match it performs the optimized move and returns
    [moved=True] with the model update of the new export. *)
Definition migrate_volume (hostname : string)
    (create_export : option (list (string * string)))
    (volume_status : string) (location_info : option string)
  : bool * option (list (string * string)) :=
  let false_ret := (false, None) in
  if str_ne volume_status "available" then false_ret
  else match location_info with
       | None => false_ret
       | Some info =>
           match parse_location_info info with
           | None => false_ret
           | Some loc =>
               if str_ne (dest_type loc) "LVMVolumeDriver"
                  || str_ne (dest_hostname loc) hostname
               then false_ret
               else (true, create_export)
           end
       end.

End LVM.

(** ** Concrete deployments, used to run the operations *)

Module Scenario.

Definition ctx0 : RequestContext := MkContext "user" "project" true.
Definition member : RequestContext := MkContext "user" "project" false.

Definition v1 : volume := Volume "v1" "available" 2 "node1@lvm" "nova".
Definition b1 : backup :=
  Backup "b1" "user" "project" "nightly" "" "v1" "available" None
         (Some 1%Z) "node1".
Definition db0 : DB :=
  Store {["v1" := v1]} {["b1" := b1]}
        [Service "cinder-backup" "node1" "nova" false 0].
Definition w0 : World := MkWorld db0 0 [].

(** A volume API that creates the record in [creating]. *)
Definition create_volume (_ : RequestContext) (size : Z)
    (name description : string) (d : DB) : (exn + volume) * DB :=
  let v := Volume "v-new" "creating" size "" "nova" in
  (inr v, Db.put_volume v d).

Definition settle (status : string) (d : DB) : DB :=
  match volumes d !! "v-new" with
  | Some v => Db.put_volume (Db.set_volume_status status v) d
  | None => d
  end.

(** Nobody ever finishes the new volume. *)
Definition idle : Collaborators :=
  Build_Collaborators (fun _ _ => true) (fun _ => true) "cinder-backup"
    (fun _ => "b-new") create_volume (fun _ d => d).

(** The volume manager settles the new volume during sleep number [k]. *)
Definition building (k : nat) (status : string) : Collaborators :=
  Build_Collaborators (fun _ _ => true) (fun _ => true) "cinder-backup"
    (fun _ => "b-new") create_volume
    (fun n d => if Nat.eqb n k then settle status d else d).

(** A quota engine with three resources; a project's limit is its row,
    or unlimited when it has none. *)
Definition engine : QuotaSets.QuotaEngine :=
  QuotaSets.Build_QuotaEngine (fun _ _ => true)
    ["volumes"; "snapshots"; "gigabytes"]
    (fun _ project q =>
       List.map (fun r => (r, default (-1)%Z (q !! (project, r))))
                ["volumes"; "snapshots"; "gigabytes"]).

Definition quotas0 : gmap (string * string) Z :=
  {[ ("project", "volumes") := 10%Z; ("project", "gigabytes") := 1000%Z ]}.

(** A volume API that hands out volumes one gigabyte smaller than asked
    for, [available] at once. *)
Definition create_smaller (_ : RequestContext) (size : Z)
    (name description : string) (d : DB) : (exn + volume) * DB :=
  let v := Volume "v-new" "available" (size - 1) "" "nova" in
  (inr v, Db.put_volume v d).

Definition stingy : Collaborators :=
  Build_Collaborators (fun _ _ => true) (fun _ => true) "cinder-backup"
    (fun _ => "b-new") create_smaller (fun _ d => d).

(** A policy that grants everything but [backup:get]. *)
Definition no_get : Collaborators :=
  Build_Collaborators (fun _ action => negb (String.eqb action "backup:get"))
    (fun _ => true) "cinder-backup" (fun _ => "b-new") create_volume
    (fun _ d => d).

(** The volume of the manager tests: 2 GB, created and [available]; a
    read-only one; a project with room, and one whose 20 gigabytes are
    taken (15 in use, 5 reserved). *)
Definition vol2 : VolumeManager.vol :=
  VolumeManager.Vol "available" "detached" 2 None None None [].
Definition vol_ro : VolumeManager.vol :=
  VolumeManager.Vol "available" "detached" 1 None None None
                    [("readonly", "True")].
Definition roomy : VolumeManager.usage := VolumeManager.Usage (-1) 2 0.
Definition full : VolumeManager.usage := VolumeManager.Usage 20 15 5.
Definition m0 : VolumeManager.state :=
  VolumeManager.State {["vol" := vol2; "ro" := vol_ro]} roomy.
Definition m_full : VolumeManager.state :=
  VolumeManager.State {["vol" := vol2]} full.

(** The same volume as the API leaves it when it dispatches a delete. *)
Definition vol_deleting : VolumeManager.vol :=
  VolumeManager.Vol "deleting" "detached" 2 None None None [].
Definition m_deleting : VolumeManager.state :=
  VolumeManager.State {["vol" := vol_deleting]} roomy.

End Scenario.

(** The exceptions the backup API raises from its own checks and
    lookups. *)
Definition raised_by_a_check (e : exn) : Prop :=
  match e with
  | PolicyNotAuthorized _ | BackupNotFound _ | VolumeNotFound _
  | InvalidBackup _ | InvalidVolume _ | ServiceNotFound _ => True
  | _ => False
  end.

(** * Properties *)

(** ** Strings *)

Section Strings.

Lemma partition_head_free (sep : ascii) (s : string) :
  Py.occurs sep (Py.partition sep s).1.1 = false.
Proof.
  induction s as [|c rest IH]; simpl; [reflexivity|].
  destruct (Ascii.eqb c sep) eqn:E; simpl; [reflexivity|].
  destruct (Py.partition sep rest) as [[h m] t]; simpl in *.
  rewrite E. exact IH.
Qed.

Lemma partition_head_of_app (sep : ascii) (h t : string) :
  Py.occurs sep h = false ->
  (Py.partition sep (String.append h (String sep t))).1.1 = h.
Proof.
  induction h as [|c rest IH]; simpl; intros Hfree.
  - rewrite Ascii.eqb_refl. reflexivity.
  - apply orb_false_elim in Hfree as [Hc Hrest]. rewrite Hc.
    specialize (IH Hrest).
    destruct (Py.partition sep (String.append rest (String sep t)))
      as [[h' m'] t'].
    simpl in *. congruence.
Qed.

Lemma partition_head_whole (sep : ascii) (s : string) :
  Py.occurs sep s = false -> (Py.partition sep s).1.1 = s.
Proof.
  induction s as [|c rest IH]; simpl; intros Hfree; [reflexivity|].
  apply orb_false_elim in Hfree as [Hc Hrest]. rewrite Hc.
  specialize (IH Hrest).
  destruct (Py.partition sep rest) as [[h m] t]. simpl in *. congruence.
Qed.

Lemma str_ne_true (a b : string) : str_ne a b = true <-> a <> b.
Proof.
  unfold str_ne. rewrite negb_true_iff. split.
  - intros E ->. rewrite String.eqb_refl in E. discriminate.
  - intros Hne. apply String.eqb_neq. exact Hne.
Qed.

Lemma str_ne_false (a b : string) : str_ne a b = false <-> a = b.
Proof.
  unfold str_ne. rewrite negb_false_iff. apply String.eqb_eq.
Qed.

End Strings.

(** ** The backup API *)

Section BackupFacts.
Context `{Collaborators}.
Import BackupAPI.

Lemma any_service_matches_true (v : volume) (host : string)
    (l : list service) :
  any_service_matches v host l = true <->
  exists srv, In srv l /\
    srv_availability_zone srv = vol_availability_zone v /\
    srv_host srv = host /\ srv_disabled srv = false /\
    service_is_up srv = true.
Proof.
  induction l as [|srv rest IH]; simpl.
  - split; [discriminate | intros (? & [] & _)].
  - destruct (_ && _ && _ && _) eqn:E.
    + split; [intros _ | reflexivity].
      repeat (apply andb_prop in E as [E ?]).
      exists srv. repeat split; try tauto.
      * by apply String.eqb_eq.
      * by apply String.eqb_eq.
      * by apply negb_true_iff.
    + rewrite IH. split.
      * intros (s & Hin & Hs). exists s. tauto.
      * intros (s & [-> | Hin] & Haz & Hh & Hd & Hup).
        -- exfalso. apply String.eqb_eq in Haz, Hh.
           rewrite Haz, Hh, Hd, Hup in E. discriminate.
        -- exists s. tauto.
Qed.

(** The services [_is_backup_service_enabled] accepts: registered under
    the backup topic, in the volume's zone, on the given host, not
    disabled, and up. *)
Lemma service_enabled_iff (v : volume) (host : string) (d : DB) :
  any_service_matches v host
    (List.filter (fun srv => String.eqb (srv_topic srv) backup_topic)
                 (services d)) = true <->
  exists srv, In srv (services d) /\ srv_topic srv = backup_topic /\
    srv_availability_zone srv = vol_availability_zone v /\
    srv_host srv = host /\ srv_disabled srv = false /\
    service_is_up srv = true.
Proof.
  rewrite any_service_matches_true. split.
  - intros (s & Hin & Hrest). apply filter_In in Hin as [Hin Ht].
    apply String.eqb_eq in Ht. exists s. tauto.
  - intros (s & Hin & Ht & Hrest). exists s. split; [|tauto].
    apply filter_In. split; [exact Hin | by apply String.eqb_eq].
Qed.

Lemma bind_returns {A B} (m : M A) (k : A -> M B) w a w' :
  m w = Some (inr a, w') -> bind m k w = k a w'.
Proof. intros E. unfold bind. by rewrite E. Qed.

Lemma bind_raises {A B} (m : M A) (k : A -> M B) w e w' :
  m w = Some (inl e, w') -> bind m k w = Some (inl e, w').
Proof. intros E. unfold bind. by rewrite E. Qed.

Lemma bind_diverges {A B} (m : M A) (k : A -> M B) w :
  m w = None -> bind m k w = None.
Proof. intros E. unfold bind. by rewrite E. Qed.

Lemma check_policy_allowed ctx action w :
  policy_enforce ctx (String.append "backup:" action) = true ->
  check_policy ctx action w = Some (inr tt, w).
Proof. intros Hpol. unfold check_policy. by rewrite Hpol. Qed.

Lemma check_policy_denied ctx action w :
  policy_enforce ctx (String.append "backup:" action) = false ->
  check_policy ctx action w =
  Some (inl (PolicyNotAuthorized (String.append "backup:" action)), w).
Proof. intros Hpol. unfold check_policy. by rewrite Hpol. Qed.

(** [create], evaluated on a request that passes the policy check and
    names an existing volume. *)
Lemma create_eval ctx name description volume_id container az w v :
  policy_enforce ctx "backup:create" = true ->
  volumes (db w) !! volume_id = Some v ->
  create ctx name description volume_id container az w =
    if str_ne (vol_status v) "available" then
      Some (inl (InvalidVolume "Volume to be backed up must be available"), w)
    else
      let volume_host := (Py.partition "@" (vol_host v)).1.1 in
      if negb (any_service_matches v volume_host
                 (List.filter
                    (fun srv => String.eqb (srv_topic srv) backup_topic)
                    (services (db w))))
      then Some (inl (ServiceNotFound "cinder-backup"), w)
      else
        let d1 := Store (<[volume_id := Db.set_volume_status "backing-up" v]>
                           (volumes (db w)))
                        (backups (db w)) (services (db w)) in
        let b := Backup (new_backup_id d1) (user_id ctx) (project_id ctx)
                        name description volume_id "creating" container
                        (Some (vol_size v)) volume_host in
        Some (inr b,
              MkWorld (Db.put_backup b d1) (clock w)
                (trace w ++ [EvVolumeUpdate volume_id "backing-up";
                             EvBackupCreate b;
                             EvCast volume_host
                                    (CreateBackup (bk_id b) volume_id)])).
Proof.
  intros Hpol Hv.
  unfold create. unfold bind at 1.
  rewrite (check_policy_allowed _ "create" _ Hpol).
  unfold volume_api_get, Db.volume_get, bind, gets.
  simpl. rewrite Hv. simpl.
  destruct (str_ne (vol_status v) "available"); [reflexivity|].
  unfold _is_backup_service_enabled, Db.service_get_all_by_topic, bind,
    gets, ret. simpl.
  destruct (any_service_matches _ _ _); simpl; [|reflexivity].
  unfold Db.volume_update, Db.backup_create, backup_rpcapi, set_db, emit,
    modify, bind, gets, ret. simpl. rewrite Hv. simpl.
  rewrite <- !app_assoc. reflexivity.
Qed.

(** C6.  A backup create request that passes the policy check on an
    existing volume: when the volume is not [available] it raises
    [InvalidVolume]; when it is, and no service registered under the
    backup topic is in the volume's zone, on the volume's host (its pool
    suffix stripped), not disabled and up, it raises [ServiceNotFound];
    both leave the whole state, hence the volume's status, unchanged.
    When both checks pass, the volume is marked [backing-up] first, then
    the backup row is created, then [create_backup] is cast. *)
Theorem create_checks_before_marking
    ctx name description volume_id container az w v :
  policy_enforce ctx "backup:create" = true ->
  volumes (db w) !! volume_id = Some v ->
  let serviced :=
    exists srv, In srv (services (db w)) /\ srv_topic srv = backup_topic /\
      srv_availability_zone srv = vol_availability_zone v /\
      srv_host srv = (Py.partition "@" (vol_host v)).1.1 /\
      srv_disabled srv = false /\ service_is_up srv = true in
  (vol_status v <> "available" ->
     create ctx name description volume_id container az w =
     Some (inl (InvalidVolume "Volume to be backed up must be available"), w))
  /\ (vol_status v = "available" -> ~ serviced ->
     create ctx name description volume_id container az w =
     Some (inl (ServiceNotFound "cinder-backup"), w))
  /\ (vol_status v = "available" -> serviced ->
     exists b w',
       create ctx name description volume_id container az w =
         Some (inr b, w')
       /\ trace w' =
          (trace w ++ [EvVolumeUpdate volume_id "backing-up";
                       EvBackupCreate b;
                       EvCast (bk_host b) (CreateBackup (bk_id b) volume_id)])%list
       /\ volumes (db w') !! volume_id =
          Some (Db.set_volume_status "backing-up" v)).
Proof.
  intros Hpol Hv serviced. subst serviced.
  rewrite (create_eval _ _ _ _ _ _ _ _ Hpol Hv). cbv zeta.
  rewrite <- service_enabled_iff.
  repeat split.
  - intros Hne. apply str_ne_true in Hne. by rewrite Hne.
  - intros Hav Hno. apply str_ne_false in Hav. rewrite Hav.
    apply not_true_is_false in Hno. by rewrite Hno.
  - intros Hav Hyes. apply str_ne_false in Hav. rewrite Hav, Hyes. simpl.
    eexists _, _. split; [reflexivity|]. simpl. split; [reflexivity|].
    apply lookup_insert_eq.
Qed.

(** C8.  Every backup create that succeeds returns a backup row, stored
    under its id, whose status is [creating], whose size is the source
    volume's size and whose host is the part of the volume's host before
    the first ['@'] (which is the whole host when it has no ['@']); the
    [create_backup] cast is addressed to that host. *)
Theorem create_copies_size_and_strips_pool
    ctx name description volume_id container az w b w' :
  create ctx name description volume_id container az w = Some (inr b, w') ->
  exists v,
    volumes (db w) !! volume_id = Some v
    /\ bk_status b = "creating"
    /\ bk_size b = Some (vol_size v)
    /\ bk_host b = (Py.partition "@" (vol_host v)).1.1
    /\ Py.occurs "@" (bk_host b) = false
    /\ (forall h pool, Py.occurs "@" h = false ->
          vol_host v = String.append h (String "@" pool) -> bk_host b = h)
    /\ (Py.occurs "@" (vol_host v) = false -> bk_host b = vol_host v)
    /\ backups (db w') !! bk_id b = Some b
    /\ exists earlier,
         trace w' =
         (earlier ++ [EvCast (Py.partition "@" (vol_host v)).1.1
                             (CreateBackup (bk_id b) volume_id)])%list.
Proof.
  intros Hrun.
  destruct (policy_enforce ctx "backup:create") eqn:Hpol; cycle 1.
  { unfold create in Hrun. unfold bind at 1 in Hrun.
    rewrite (check_policy_denied _ "create" _ Hpol) in Hrun.
    discriminate. }
  destruct (volumes (db w) !! volume_id) as [v|] eqn:Hv; cycle 1.
  { unfold create in Hrun. unfold bind at 1 in Hrun.
    rewrite (check_policy_allowed _ "create" _ Hpol) in Hrun.
    unfold volume_api_get, Db.volume_get, bind, gets in Hrun.
    simpl in Hrun. rewrite Hv in Hrun. discriminate. }
  rewrite (create_eval _ _ _ _ _ _ _ _ Hpol Hv) in Hrun. cbv zeta in Hrun.
  destruct (str_ne (vol_status v) "available"); [discriminate|].
  destruct (negb _); [discriminate|].
  simpl in Hrun. injection Hrun as <- <-.
  exists v. simpl. repeat split.
  - apply partition_head_free.
  - intros h pool Hfree ->. by apply partition_head_of_app.
  - apply partition_head_whole.
  - apply lookup_insert_eq.
  - eexists (trace w ++ [_; _])%list. rewrite <- app_assoc. reflexivity.
Qed.

(** *** The polling loop of [restore] *)

Lemma slept_n_clock k w : clock (slept_n k w) = clock w + k.
Proof.
  revert w. induction k as [|k IH]; intros w; simpl; [lia|].
  rewrite IH. simpl. lia.
Qed.

Lemma slept_n_trace k w :
  trace (slept_n k w) = (trace w ++ repeat (EvSleep 1) k)%list.
Proof.
  revert w. induction k as [|k IH]; intros w; simpl.
  - by rewrite app_nil_r.
  - rewrite IH. simpl. by rewrite <- app_assoc.
Qed.

Lemma wait_step fuel ctx vid w :
  wait_while_creating (S fuel) ctx vid w =
  match volumes (db w) !! vid with
  | None => Some (inl (VolumeNotFound vid), w)
  | Some v =>
      if str_ne (vol_status v) "creating" then Some (inr v, w)
      else wait_while_creating fuel ctx vid (slept w)
  end.
Proof.
  simpl. unfold volume_api_get, Db.volume_get, bind, gets. simpl.
  destruct (volumes (db w) !! vid) as [v|]; [|reflexivity]. simpl.
  destruct (str_ne (vol_status v) "creating"); reflexivity.
Qed.

Lemma still_creating_true vid w :
  still_creating vid w = true <->
  exists v, volumes (db w) !! vid = Some v /\ vol_status v = "creating".
Proof.
  unfold still_creating. destruct (volumes (db w) !! vid) as [v|].
  - rewrite String.eqb_eq. split; [eauto|]. by intros (? & [= <-] & ?).
  - split; [discriminate|]. by intros (? & ? & _).
Qed.

(** The loop runs out of any amount of fuel exactly when every poll it
    makes with that fuel sees the volume in [creating]. *)
Lemma wait_diverges_iff fuel ctx vid w :
  wait_while_creating fuel ctx vid w = None <->
  forall j, j < fuel -> still_creating vid (slept_n j w) = true.
Proof.
  revert w. induction fuel as [|fuel IH]; intros w.
  - simpl. split; [intros _ j Hj; lia | reflexivity].
  - rewrite wait_step.
    destruct (volumes (db w) !! vid) as [v|] eqn:Hv.
    + destruct (str_ne (vol_status v) "creating") eqn:Hs.
      * split; [discriminate|]. intros Hall.
        specialize (Hall 0 ltac:(lia)). simpl in Hall.
        apply still_creating_true in Hall as (v' & Hv' & Hc).
        rewrite Hv in Hv'. injection Hv' as <-.
        apply str_ne_true in Hs. contradiction.
      * rewrite IH. apply str_ne_false in Hs. split.
        -- intros Hall [|j] Hj; simpl.
           ++ apply still_creating_true. eauto.
           ++ apply Hall. lia.
        -- intros Hall j Hj. apply (Hall (S j)). lia.
    + split; [discriminate|]. intros Hall.
      specialize (Hall 0 ltac:(lia)). simpl in Hall.
      unfold still_creating in Hall. rewrite Hv in Hall. discriminate.
Qed.

(** The loop ends at the first poll that does not see [creating], after
    one sleep for each earlier poll. *)
Lemma wait_settles k : forall fuel ctx vid w,
  (forall j, j < k -> still_creating vid (slept_n j w) = true) ->
  still_creating vid (slept_n k w) = false ->
  k < fuel ->
  wait_while_creating fuel ctx vid w =
  match volumes (db (slept_n k w)) !! vid with
  | Some v => Some (inr v, slept_n k w)
  | None => Some (inl (VolumeNotFound vid), slept_n k w)
  end.
Proof.
  induction k as [|k IH]; intros fuel ctx vid w Hbefore Hnow Hfuel;
    (destruct fuel as [|fuel]; [lia|]); rewrite wait_step.
  - simpl in *. unfold still_creating in Hnow.
    destruct (volumes (db w) !! vid) as [v|]; [|reflexivity].
    unfold str_ne. by rewrite Hnow.
  - pose proof (Hbefore 0 ltac:(lia)) as H0. simpl in H0.
    apply still_creating_true in H0 as (v & Hv & Hc).
    rewrite Hv. apply str_ne_false in Hc. rewrite Hc. simpl.
    apply IH; [|exact Hnow|lia].
    intros j Hj. apply (Hbefore (S j)). lia.
Qed.

(** *** [restore], block by block *)

Lemma restore_split fuel ctx backup_id volume_id :
  restore fuel ctx backup_id volume_id =
  (check_policy ctx "restore" ;;
   let! backup := get ctx backup_id in
   raise_if str_ne (bk_status backup) "available"
     then InvalidBackup "Backup status must be available" ;;
   match bk_size backup with
   | None => raise (InvalidBackup "Backup to be restored has invalid size")
   | Some size =>
       let! target := restore_target fuel ctx backup_id size volume_id in
       restore_onto backup_id backup size target.1 target.2
   end)%py.
Proof. reflexivity. Qed.

Lemma restore_eval fuel ctx backup_id volume_id w b :
  policy_enforce ctx "backup:restore" = true ->
  policy_enforce ctx "backup:get" = true ->
  backups (db w) !! backup_id = Some b ->
  restore fuel ctx backup_id volume_id w =
  if str_ne (bk_status b) "available" then
    Some (inl (InvalidBackup "Backup status must be available"), w)
  else match bk_size b with
       | None =>
           Some (inl (InvalidBackup "Backup to be restored has invalid size"),
                 w)
       | Some size =>
           bind (restore_target fuel ctx backup_id size volume_id)
                (fun target =>
                   restore_onto backup_id b size target.1 target.2) w
       end.
Proof.
  intros Hrestore Hget Hb. rewrite restore_split.
  erewrite bind_returns;
    [|by apply (check_policy_allowed _ "restore")].
  erewrite (bind_returns (get ctx backup_id)); cycle 1.
  { unfold get.
    erewrite bind_returns; [|by apply (check_policy_allowed _ "get")].
    unfold Db.backup_get, bind, gets. simpl. rewrite Hb. reflexivity. }
  destruct (str_ne (bk_status b) "available"); [reflexivity|].
  destruct (bk_size b); reflexivity.
Qed.

Lemma restore_onto_eval backup_id b size v volume_id w b' v' :
  backups (db w) !! backup_id = Some b' ->
  volumes (db w) !! volume_id = Some v' ->
  restore_onto backup_id b size v volume_id w =
  if str_ne (vol_status v) "available" then
    Some (inl (InvalidVolume "Volume to be restored to must be available"), w)
  else if (size >? vol_size v)%Z then
    Some (inl (InvalidVolume
            "Volume to be restored to is smaller than the backup to be restored"),
          w)
  else
    Some (inr (Reply backup_id volume_id),
          MkWorld
            (Store (<[volume_id := Db.set_volume_status "restoring-backup" v']>
                      (volumes (db w)))
                   (<[backup_id := Db.set_backup_status "restoring" b']>
                      (backups (db w)))
                   (services (db w)))
            (clock w)
            (trace w ++ [EvBackupUpdate backup_id "restoring";
                         EvVolumeUpdate volume_id "restoring-backup";
                         EvCast (bk_host b)
                                (RestoreBackup (bk_id b) volume_id)])).
Proof.
  intros Hb Hv. unfold restore_onto.
  destruct (str_ne (vol_status v) "available"); [reflexivity|].
  destruct (size >? vol_size v)%Z; [reflexivity|].
  unfold Db.backup_update, Db.volume_update, backup_rpcapi, set_db, emit,
    modify, bind, gets, ret. simpl. rewrite Hb. simpl. rewrite Hv. simpl.
  rewrite <- !app_assoc. reflexivity.
Qed.

(** Whatever it is given, the last block of [restore] ends, without
    sleeping, and only adds to the trace. *)
Lemma restore_onto_total backup_id b size v volume_id w :
  exists r w', restore_onto backup_id b size v volume_id w = Some (r, w')
    /\ clock w' = clock w
    /\ exists rest, trace w' = (trace w ++ rest)%list.
Proof.
  unfold restore_onto.
  destruct (str_ne (vol_status v) "available").
  { eexists _, w. repeat split. exists []. by rewrite app_nil_r. }
  destruct (size >? vol_size v)%Z.
  { eexists _, w. repeat split. exists []. by rewrite app_nil_r. }
  unfold Db.backup_update, Db.volume_update, backup_rpcapi, set_db, emit,
    modify, bind, gets, ret. simpl.
  destruct (backups (db w) !! backup_id); simpl.
  2: { eexists _, w. repeat split. exists []. by rewrite app_nil_r. }
  destruct (volumes (db w) !! volume_id); simpl.
  - eexists _, _. repeat split. rewrite <- !app_assoc. eauto.
  - eexists _, _. repeat split. eauto.
Qed.

Lemma restore_target_given fuel ctx backup_id size volume_id w v :
  volumes (db w) !! volume_id = Some v ->
  restore_target fuel ctx backup_id size (Some volume_id) w =
  if (vol_size v <? size)%Z then
    Some (inl (InvalidVolume
            (String.append "volume size "
              (String.append (Py.fmt_d (vol_size v))
                (String.append " is too small to restore backup of size "
                  (String.append (Py.fmt_d size) "."))))), w)
  else Some (inr (v, volume_id), w).
Proof.
  intros Hv. unfold restore_target, volume_api_get, Db.volume_get, bind,
    gets. simpl. rewrite Hv. simpl.
  destruct (vol_size v <? size)%Z; reflexivity.
Qed.

Lemma restore_target_created fuel ctx backup_id size w created d1 :
  volume_api_create ctx size (String.append "restore_backup_" backup_id)
    "auto-created_from_restore_from_backup" (db w) = (inr created, d1) ->
  restore_target fuel ctx backup_id size None w =
  bind (wait_while_creating fuel ctx (vol_id created))
       (fun volume => ret (volume, vol_id created))
       (created_in w size backup_id d1).
Proof.
  intros Hc. unfold restore_target. unfold bind at 1.
  unfold volume_api_create_call. rewrite Hc. reflexivity.
Qed.

Lemma still_creating_settled vid w v :
  volumes (db w) !! vid = Some v -> vol_status v <> "creating" ->
  still_creating vid w = false.
Proof.
  intros Hv Hs. unfold still_creating. rewrite Hv.
  by apply String.eqb_neq.
Qed.

(** What [restore_target] yields when no destination is given, the volume
    API has created [created], and poll number [k] is the first to see the
    volume, now [v], out of [creating]. *)
Lemma restore_target_settled fuel ctx backup_id size w created d1 k v :
  volume_api_create ctx size (String.append "restore_backup_" backup_id)
    "auto-created_from_restore_from_backup" (db w) = (inr created, d1) ->
  (forall j, j < k ->
     still_creating (vol_id created)
       (slept_n j (created_in w size backup_id d1)) = true) ->
  volumes (db (slept_n k (created_in w size backup_id d1)))
    !! vol_id created = Some v ->
  vol_status v <> "creating" ->
  k < fuel ->
  restore_target fuel ctx backup_id size None w =
  Some (inr (v, vol_id created), slept_n k (created_in w size backup_id d1)).
Proof.
  intros Hc Hbefore Hv Hs Hfuel.
  rewrite (restore_target_created _ _ _ _ _ _ _ Hc).
  erewrite bind_returns; [reflexivity|].
  rewrite (wait_settles k); [by rewrite Hv|exact Hbefore| |exact Hfuel].
  by apply (still_creating_settled _ _ v).
Qed.

(** C5, as the code has it.  A restore request that passes the policy
    checks on an existing backup:
    - raises [InvalidBackup], changing nothing, when the backup is not
      [available] or its size is null;
    - with a destination volume that is too small or not [available],
      raises [InvalidVolume], changing nothing;
    - with a destination volume that is large enough and [available],
      sets the backup to [restoring], then the volume to
      [restoring-backup], then casts [restore_backup];
    - with no destination volume, and the volume API having created one,
      does the same on that volume once a poll finds it out of [creating],
      [available] and large enough, and raises [InvalidVolume], the created
      volume left behind, when that poll finds it in another status or too
      small;
    - with no destination volume, raises what the volume API's [create]
      raises; has no outcome as long as every poll sees [creating]; raises
      [VolumeNotFound] when a poll does not find the volume, and
      [BackupNotFound] when the backup row is gone by the time it is to be
      marked. *)
Theorem restore_validates_then_marks fuel ctx backup_id w b :
  policy_enforce ctx "backup:restore" = true ->
  policy_enforce ctx "backup:get" = true ->
  backups (db w) !! backup_id = Some b ->
  (bk_status b <> "available" \/ bk_size b = None ->
     forall volume_id, exists reason,
       restore fuel ctx backup_id volume_id w =
       Some (inl (InvalidBackup reason), w))
  /\ forall size, bk_status b = "available" -> bk_size b = Some size ->
     (forall volume_id v,
        volumes (db w) !! volume_id = Some v ->
        (vol_size v < size)%Z \/ vol_status v <> "available" ->
        exists reason,
          restore fuel ctx backup_id (Some volume_id) w =
          Some (inl (InvalidVolume reason), w))
     /\ (forall volume_id v,
        volumes (db w) !! volume_id = Some v ->
        (size <= vol_size v)%Z -> vol_status v = "available" ->
        exists w',
          restore fuel ctx backup_id (Some volume_id) w =
            Some (inr (Reply backup_id volume_id), w')
          /\ trace w' =
             (trace w ++ [EvBackupUpdate backup_id "restoring";
                          EvVolumeUpdate volume_id "restoring-backup";
                          EvCast (bk_host b)
                                 (RestoreBackup (bk_id b) volume_id)])%list
          /\ backups (db w') !! backup_id =
             Some (Db.set_backup_status "restoring" b)
          /\ volumes (db w') !! volume_id =
             Some (Db.set_volume_status "restoring-backup" v))
     /\ (forall created d1 k v,
        volume_api_create ctx size
          (String.append "restore_backup_" backup_id)
          "auto-created_from_restore_from_backup" (db w)
          = (inr created, d1) ->
        let wk := slept_n k (created_in w size backup_id d1) in
        (forall j, j < k ->
           still_creating (vol_id created)
             (slept_n j (created_in w size backup_id d1)) = true) ->
        volumes (db wk) !! vol_id created = Some v ->
        vol_status v <> "creating" ->
        k < fuel ->
        (vol_status v <> "available" \/ (vol_size v < size)%Z ->
           exists reason,
             restore fuel ctx backup_id None w =
             Some (inl (InvalidVolume reason), wk))
        /\ (vol_status v = "available" -> (size <= vol_size v)%Z ->
            forall b', backups (db wk) !! backup_id = Some b' ->
            exists w',
              restore fuel ctx backup_id None w =
                Some (inr (Reply backup_id (vol_id created)), w')
              /\ trace w' =
                 (trace wk ++
                    [EvBackupUpdate backup_id "restoring";
                     EvVolumeUpdate (vol_id created) "restoring-backup";
                     EvCast (bk_host b)
                            (RestoreBackup (bk_id b) (vol_id created))])%list
              /\ backups (db w') !! backup_id =
                 Some (Db.set_backup_status "restoring" b')
              /\ volumes (db w') !! vol_id created =
                 Some (Db.set_volume_status "restoring-backup" v)))
     /\ (forall e d1,
        volume_api_create ctx size
          (String.append "restore_backup_" backup_id)
          "auto-created_from_restore_from_backup" (db w) = (inl e, d1) ->
        restore fuel ctx backup_id None w =
        Some (inl e, created_in w size backup_id d1))
     /\ (forall created d1,
        volume_api_create ctx size
          (String.append "restore_backup_" backup_id)
          "auto-created_from_restore_from_backup" (db w)
          = (inr created, d1) ->
        (forall j, j < fuel ->
           still_creating (vol_id created)
             (slept_n j (created_in w size backup_id d1)) = true) ->
        restore fuel ctx backup_id None w = None)
     /\ (forall created d1 k,
        volume_api_create ctx size
          (String.append "restore_backup_" backup_id)
          "auto-created_from_restore_from_backup" (db w)
          = (inr created, d1) ->
        (forall j, j < k ->
           still_creating (vol_id created)
             (slept_n j (created_in w size backup_id d1)) = true) ->
        volumes (db (slept_n k (created_in w size backup_id d1)))
          !! vol_id created = None ->
        k < fuel ->
        restore fuel ctx backup_id None w =
        Some (inl (VolumeNotFound (vol_id created)),
              slept_n k (created_in w size backup_id d1)))
     /\ (forall created d1 k v,
        volume_api_create ctx size
          (String.append "restore_backup_" backup_id)
          "auto-created_from_restore_from_backup" (db w)
          = (inr created, d1) ->
        (forall j, j < k ->
           still_creating (vol_id created)
             (slept_n j (created_in w size backup_id d1)) = true) ->
        volumes (db (slept_n k (created_in w size backup_id d1)))
          !! vol_id created = Some v ->
        vol_status v = "available" -> (size <= vol_size v)%Z ->
        k < fuel ->
        backups (db (slept_n k (created_in w size backup_id d1)))
          !! backup_id = None ->
        restore fuel ctx backup_id None w =
        Some (inl (BackupNotFound backup_id),
              slept_n k (created_in w size backup_id d1))).
Proof.
  intros Hrestore Hget Hb. split.
  - intros Hbad volume_id.
    rewrite (restore_eval _ _ _ _ _ _ Hrestore Hget Hb).
    destruct (str_ne (bk_status b) "available") eqn:Hs; [eauto|].
    apply str_ne_false in Hs. destruct Hbad as [Hne | ->]; [done|eauto].
  - intros size Hav Hsize. apply str_ne_false in Hav.
    split; [|split; [|split; [|split; [|split; [|split]]]]].
    + intros volume_id v Hv Hbad.
      rewrite (restore_eval _ _ _ _ _ _ Hrestore Hget Hb), Hav, Hsize.
      unfold bind. rewrite (restore_target_given _ _ _ _ _ _ _ Hv).
      destruct (vol_size v <? size)%Z eqn:Hlt; [eauto|].
      apply Z.ltb_ge in Hlt. destruct Hbad as [Hsmall | Hne]; [lia|].
      simpl. rewrite (restore_onto_eval _ _ _ _ _ _ _ _ Hb Hv).
      apply str_ne_true in Hne. rewrite Hne. eauto.
    + intros volume_id v Hv Hfits Hvav.
      rewrite (restore_eval _ _ _ _ _ _ Hrestore Hget Hb), Hav, Hsize.
      unfold bind. rewrite (restore_target_given _ _ _ _ _ _ _ Hv).
      apply Z.ltb_ge in Hfits as Hlt. rewrite Hlt. simpl.
      rewrite (restore_onto_eval _ _ _ _ _ _ _ _ Hb Hv).
      apply str_ne_false in Hvav. rewrite Hvav.
      assert ((size >? vol_size v)%Z = false) as -> by lia.
      eexists. split; [reflexivity|]. simpl.
      repeat split; apply lookup_insert_eq.
    + intros created d1 k v Hc wk Hbefore Hv Hs Hfuel.
      assert (restore fuel ctx backup_id None w =
              restore_onto backup_id b size v (vol_id created) wk) as ->.
      { rewrite (restore_eval _ _ _ _ _ _ Hrestore Hget Hb), Hav, Hsize.
        erewrite bind_returns; [|by eapply restore_target_settled].
        reflexivity. }
      split.
      * intros Hbad. unfold restore_onto.
        destruct Hbad as [Hne | Hsmall].
        -- apply str_ne_true in Hne. rewrite Hne. eauto.
        -- destruct (str_ne (vol_status v) "available"); [eauto|].
           assert ((size >? vol_size v)%Z = true) as -> by lia. eauto.
      * intros Hvav Hfits b' Hb'.
        rewrite (restore_onto_eval _ _ _ _ _ _ _ _ Hb' Hv).
        apply str_ne_false in Hvav. rewrite Hvav.
        assert ((size >? vol_size v)%Z = false) as -> by lia.
        eexists. split; [reflexivity|]. simpl.
        repeat split; apply lookup_insert_eq.
    + intros e d1 Hc.
      rewrite (restore_eval _ _ _ _ _ _ Hrestore Hget Hb), Hav, Hsize.
      unfold bind at 1, restore_target. unfold bind at 1.
      unfold volume_api_create_call. by rewrite Hc.
    + intros created d1 Hc Hall.
      rewrite (restore_eval _ _ _ _ _ _ Hrestore Hget Hb), Hav, Hsize.
      apply bind_diverges. rewrite (restore_target_created _ _ _ _ _ _ _ Hc).
      by apply bind_diverges, wait_diverges_iff.
    + intros created d1 k Hc Hbefore Hgone Hfuel.
      rewrite (restore_eval _ _ _ _ _ _ Hrestore Hget Hb), Hav, Hsize.
      erewrite bind_raises; [reflexivity|].
      rewrite (restore_target_created _ _ _ _ _ _ _ Hc).
      erewrite bind_raises; [reflexivity|].
      rewrite (wait_settles k _ _ _ _ Hbefore); [by rewrite Hgone| |exact Hfuel].
      unfold still_creating. by rewrite Hgone.
    + intros created d1 k v Hc Hbefore Hv Hvav Hfits Hfuel Hgone.
      rewrite (restore_eval _ _ _ _ _ _ Hrestore Hget Hb), Hav, Hsize.
      erewrite bind_returns; cycle 1.
      { eapply restore_target_settled; [exact Hc|exact Hbefore|exact Hv|
                                        |exact Hfuel].
        by rewrite Hvav. }
      simpl. unfold restore_onto.
      apply str_ne_false in Hvav. rewrite Hvav.
      assert ((size >? vol_size v)%Z = false) as -> by lia.
      unfold Db.backup_update, bind, gets. simpl. by rewrite Hgone.
Qed.

(** C1, as the code has it.  A restore request with no destination volume
    that passes the checks of the backup, the volume API having created
    the destination: the volume is created first and then polled, with a
    one-second sleep after every poll that sees it in [creating] and with
    no limit on the number of polls.  With any number of iterations
    unfolded, [restore] has produced no outcome exactly when every one of
    these polls saw [creating]; and it produces an outcome, after [k]
    sleeps, once poll number [k] is the first not to see [creating]. *)
Theorem restore_polls_until_not_creating ctx backup_id w b size created d1 :
  policy_enforce ctx "backup:restore" = true ->
  policy_enforce ctx "backup:get" = true ->
  backups (db w) !! backup_id = Some b ->
  bk_status b = "available" ->
  bk_size b = Some size ->
  volume_api_create ctx size (String.append "restore_backup_" backup_id)
    "auto-created_from_restore_from_backup" (db w) = (inr created, d1) ->
  let w1 := created_in w size backup_id d1 in
  (forall fuel,
     restore fuel ctx backup_id None w = None <->
     forall j, j < fuel ->
       still_creating (vol_id created) (slept_n j w1) = true)
  /\ (forall k fuel,
     (forall j, j < k ->
        still_creating (vol_id created) (slept_n j w1) = true) ->
     still_creating (vol_id created) (slept_n k w1) = false ->
     k < fuel ->
     exists r w' rest,
       restore fuel ctx backup_id None w = Some (r, w')
       /\ clock w' = clock w + k
       /\ trace w' =
          (trace w ++
             EvVolumeCreate size (String.append "restore_backup_" backup_id)
               "auto-created_from_restore_from_backup"
             :: repeat (EvSleep 1) k ++ rest)%list).
Proof.
  intros Hrestore Hget Hb Hav Hsize Hc w1. apply str_ne_false in Hav.
  assert (forall fuel,
    restore fuel ctx backup_id None w =
    bind (bind (wait_while_creating fuel ctx (vol_id created))
               (fun volume => ret (volume, vol_id created)))
         (fun target => restore_onto backup_id b size target.1 target.2)
         w1) as Hrun.
  { intros fuel.
    rewrite (restore_eval _ _ _ _ _ _ Hrestore Hget Hb), Hav, Hsize.
    unfold bind at 1.
    rewrite (restore_target_created _ _ _ _ _ _ _ Hc). reflexivity. }
  split.
  - intros fuel. rewrite Hrun, <- (wait_diverges_iff fuel ctx). unfold bind.
    destruct (wait_while_creating fuel ctx (vol_id created) w1)
      as [[[e|v] w2]|]; simpl.
    + split; intros E; discriminate E.
    + destruct (restore_onto_total backup_id b size v (vol_id created) w2)
        as (r & w' & -> & _). split; intros E; discriminate E.
    + split; reflexivity.
  - intros k fuel Hbefore Hnow Hfuel. rewrite Hrun.
    unfold bind. rewrite (wait_settles k fuel ctx _ _ Hbefore Hnow Hfuel).
    assert (clock (slept_n k w1) = clock w + k) as Hclock
      by (rewrite slept_n_clock; reflexivity).
    assert (trace (slept_n k w1) =
            (trace w ++
               EvVolumeCreate size
                 (String.append "restore_backup_" backup_id)
                 "auto-created_from_restore_from_backup"
               :: repeat (EvSleep 1) k)%list) as Htrace.
    { rewrite slept_n_trace. simpl. by rewrite <- app_assoc. }
    destruct (volumes (db (slept_n k w1)) !! vol_id created) as [v|].
    + simpl.
      destruct (restore_onto_total backup_id b size v (vol_id created)
                  (slept_n k w1)) as (r & w' & -> & Hcl & rest & Htr).
      exists r, w', rest. split; [reflexivity|]. split; [lia|].
      rewrite Htr, Htrace, <- app_assoc. reflexivity.
    + exists (inl (VolumeNotFound (vol_id created))), (slept_n k w1), [].
      split; [reflexivity|]. split; [exact Hclock|].
      rewrite Htrace, app_nil_r. reflexivity.
Qed.

End BackupFacts.

(** *** The backup API on the concrete deployments *)

Section BackupRuns.
Import BackupAPI Scenario.

Lemma idle_keeps_db j w : db (slept_n (H:=idle) j w) = db w.
Proof. revert w. induction j as [|j IH]; intros w; simpl; [done|by rewrite IH]. Qed.

(** C1, refuted as stated: while nobody takes the new volume out of
    [creating], no number of iterations lets [restore] produce an outcome,
    so the wait is not bounded. *)
Lemma restore_poll_has_no_bound :
  ~ exists fuel r, restore (H:=idle) fuel ctx0 "b1" None w0 = Some r.
Proof.
  intros (fuel & r & Hr).
  rewrite (restore_eval (H:=idle) fuel ctx0 "b1" None w0 b1
             eq_refl eq_refl eq_refl) in Hr.
  change (bind (restore_target (H:=idle) fuel ctx0 "b1" 1 None)
               (fun target => restore_onto "b1" b1 1 target.1 target.2) w0
          = Some r) in Hr.
  rewrite (bind_diverges (restore_target (H:=idle) fuel ctx0 "b1" 1 None))
    in Hr; [discriminate|].
  erewrite (restore_target_created (H:=idle)); [|reflexivity].
  apply bind_diverges, wait_diverges_iff.
  intros j _. unfold still_creating. rewrite idle_keeps_db. reflexivity.
Qed.

Lemma restore_polls_witness :
  exists r w' rest,
    restore (H:=building 2 "available") 5 ctx0 "b1" None w0 = Some (r, w')
    /\ clock w' = clock w0 + 3
    /\ trace w' =
       (trace w0 ++
          EvVolumeCreate 1 (String.append "restore_backup_" "b1")
            "auto-created_from_restore_from_backup"
          :: repeat (EvSleep 1) 3 ++ rest)%list.
Proof.
  apply (proj2 (restore_polls_until_not_creating (H:=building 2 "available")
                  ctx0 "b1" w0 b1 1 (Volume "v-new" "creating" 1 "" "nova")
                  (Db.put_volume (Volume "v-new" "creating" 1 "" "nova") db0)
                  eq_refl eq_refl eq_refl eq_refl eq_refl eq_refl) 3 5).
  - intros [|[|[|j]]] Hj; [reflexivity..|lia].
  - reflexivity.
  - lia.
Defined.

(** C5, refuted as stated: the backup is [available] with a size and no
    destination volume is given, so none of the stated error cases holds;
    the volume created for the restore ends in [error], and [restore]
    raises [InvalidVolume] with the backup still [available], nothing cast,
    and the new volume left in the store. *)
Lemma restore_without_destination_can_fail :
  bk_status b1 = "available" /\ bk_size b1 = Some 1%Z /\
  volumes (db w0) !! "v-new" = None /\
  match restore (H:=building 0 "error") 3 ctx0 "b1" None w0 with
  | Some (inl (InvalidVolume _), w') =>
      backups (db w') !! "b1" = Some b1
      /\ volumes (db w') !! "v-new" =
         Some (Volume "v-new" "error" 1 "" "nova")
      /\ trace w' =
         [EvVolumeCreate 1 "restore_backup_b1"
            "auto-created_from_restore_from_backup"; EvSleep 1]
  | _ => False
  end.
Proof. vm_compute. repeat split. Qed.

Lemma restore_marks_witness :
  exists w',
    restore (H:=idle) 0 ctx0 "b1" (Some "v1") w0 =
      Some (inr (Reply "b1" "v1"), w')
    /\ trace w' =
       (trace w0 ++ [EvBackupUpdate "b1" "restoring";
                     EvVolumeUpdate "v1" "restoring-backup";
                     EvCast (bk_host b1)
                            (RestoreBackup (bk_id b1) "v1")])%list
    /\ backups (db w') !! "b1" = Some (Db.set_backup_status "restoring" b1)
    /\ volumes (db w') !! "v1" =
       Some (Db.set_volume_status "restoring-backup" v1).
Proof.
  apply (proj1 (proj2 (proj2 (restore_validates_then_marks (H:=idle)
                  0 ctx0 "b1" w0 b1 eq_refl eq_refl eq_refl)
                1%Z eq_refl eq_refl)) "v1" v1 eq_refl).
  - simpl. lia.
  - reflexivity.
Defined.

Lemma create_checks_witness :
  exists b w',
    create (H:=idle) ctx0 "nightly" "" "v1" None None w0 = Some (inr b, w')
    /\ trace w' =
       (trace w0 ++ [EvVolumeUpdate "v1" "backing-up";
                     EvBackupCreate b;
                     EvCast (bk_host b) (CreateBackup (bk_id b) "v1")])%list
    /\ volumes (db w') !! "v1" = Some (Db.set_volume_status "backing-up" v1).
Proof.
  apply (proj2 (proj2 (create_checks_before_marking (H:=idle)
                  ctx0 "nightly" "" "v1" None None w0 v1 eq_refl eq_refl))
               eq_refl).
  exists (Service "cinder-backup" "node1" "nova" false 0).
  repeat split. left. reflexivity.
Defined.

Lemma create_copies_witness :
  exists b w',
    create (H:=idle) ctx0 "nightly" "" "v1" None None w0 = Some (inr b, w')
    /\ bk_status b = "creating"
    /\ bk_size b = Some 2%Z
    /\ bk_host b = "node1".
Proof.
  eexists _, _. split; [vm_compute; reflexivity|].
  destruct (create_copies_size_and_strips_pool (H:=idle)
              ctx0 "nightly" "" "v1" None None w0 _ _ eq_refl)
    as (v & Hv & Hst & Hsz & Hh & _).
  injection Hv as <-. repeat split; assumption.
Defined.

End BackupRuns.

(** ** The quota-set controller *)

Section QuotaFacts.
Context `{QuotaSets.QuotaEngine}.
Import QuotaSets.

Lemma update_keys_app ctx project pre post q :
  update_keys ctx project (pre ++ post) q =
  match update_keys ctx project pre q with
  | (inl e, q') => (inl e, q')
  | (inr _, q') => update_keys ctx project post q'
  end.
Proof.
  revert q. induction pre as [|[key limit] pre IH]; intros q; simpl.
  - reflexivity.
  - destruct (update_key ctx project key limit q); [reflexivity|apply IH].
Qed.

(** The limits [_validate_quota_limit] lets through: instances of [int]
    that are at least [-1]. *)
Lemma validate_accepts limit :
  _validate_quota_limit limit = inr tt <->
  isinstance_int limit = true /\ (-1 <= int_value limit)%Z.
Proof.
  unfold _validate_quota_limit.
  destruct (isinstance_int limit); simpl.
  - destruct (int_value limit <? -1)%Z eqn:E.
    + apply Z.ltb_lt in E. split; [discriminate|]. intros [_ ?]. lia.
    + apply Z.ltb_ge in E. split; [intros _; split; [reflexivity|lia]|reflexivity].
  - split; [discriminate | intros [? _]; discriminate].
Qed.

Lemma validate_rejects limit :
  isinstance_int limit = false \/ (int_value limit < -1)%Z ->
  exists explanation,
    _validate_quota_limit limit = inl (HTTPBadRequest explanation).
Proof.
  unfold _validate_quota_limit. intros Hbad.
  destruct (isinstance_int limit); simpl; [|eauto].
  destruct Hbad as [|Hlt]; [discriminate|].
  apply Z.ltb_lt in Hlt. rewrite Hlt. eauto.
Qed.

(** C9.  In an update the authorizer lets through, take a known resource
    key whose limit passes validation, reached after the keys before it
    were handled.  When [db.quota_update] raises [ProjectQuotaNotFound]
    for it, the controller's step is [db.quota_create] with the same
    project, key and value; it does not fail and leaves the row holding
    the value; and if the remaining keys are handled too, the update
    returns the quota set read from the resulting table.  When
    [db.quota_update] raises [AdminRequired], the update raises
    [HTTPForbidden]. *)
Theorem update_creates_missing_row
    ctx project pre key limit value post q0 q :
  authorize ctx "quotas:update" = true ->
  in_QUOTAS key = true ->
  _validate_quota_limit limit = inr tt ->
  py_int limit = inr value ->
  update_keys ctx project pre q0 = (inr tt, q) ->
  (quota_update ctx project key value q = inl (ProjectQuotaNotFound project) ->
     update_key ctx project key limit q =
       quota_create ctx project key value q
     /\ quota_create ctx project key value q =
        inr (<[(project, key) := value]> q)
     /\ (<[(project, key) := value]> q) !! (project, key) = Some value
     /\ forall q',
          update_keys ctx project post (<[(project, key) := value]> q)
            = (inr tt, q') ->
          update ctx project (pre ++ (key, limit) :: post) q0 =
          (inr (_get_quotas ctx project q'), q'))
  /\ (quota_update ctx project key value q = inl AdminRequired ->
     update ctx project (pre ++ (key, limit) :: post) q0 =
     (inl HTTPForbidden, q)).
Proof.
  intros Hauth Hknown Hvalid Hint Hpre. split.
  - intros Hnf.
    assert (is_admin ctx = true) as Hadmin.
    { unfold quota_update in Hnf. destruct (is_admin ctx); [done|].
      discriminate. }
    assert (update_key ctx project key limit q =
            quota_create ctx project key value q) as Hstep.
    { unfold update_key. by rewrite Hknown, Hvalid, Hint, Hnf. }
    assert (quota_create ctx project key value q =
            inr (<[(project, key) := value]> q)) as Hcreate.
    { unfold quota_create. by rewrite Hadmin. }
    repeat split; [exact Hstep|exact Hcreate|apply lookup_insert_eq|].
    intros q' Hpost. unfold update. rewrite Hauth. simpl.
    rewrite update_keys_app, Hpre. simpl.
    by rewrite Hstep, Hcreate, Hpost.
  - intros Hadm. unfold update. rewrite Hauth. simpl.
    rewrite update_keys_app, Hpre. simpl.
    unfold update_key. by rewrite Hknown, Hvalid, Hint, Hadm.
Qed.

(** C10, as the code has it.  A limit proposed for a known quota resource
    that is not an instance of [int], or is less than [-1], makes the
    update raise [HTTPBadRequest] before anything is written for that key
    or for a later one: the table is the one the earlier keys left, and is
    untouched when no known key comes earlier.  [-1], like every [int] above
    it, passes validation.  A key that is not a known resource is skipped,
    whatever its value. *)
Theorem update_rejects_bad_limit_at_its_key
    ctx project pre key limit post q0 q :
  authorize ctx "quotas:update" = true ->
  update_keys ctx project pre q0 = (inr tt, q) ->
  (in_QUOTAS key = true ->
     isinstance_int limit = false \/ (int_value limit < -1)%Z ->
     exists explanation,
       update ctx project (pre ++ (key, limit) :: post) q0 =
       (inl (HTTPBadRequest explanation), q)
       /\ (Forall (fun kv => in_QUOTAS kv.1 = false) pre -> q = q0))
  /\ _validate_quota_limit (PyInt (-1)) = inr tt
  /\ (forall n, (-1 <= n)%Z -> _validate_quota_limit (PyInt n) = inr tt)
  /\ (in_QUOTAS key = false ->
     update_key ctx project key limit q = inr q
     /\ update_keys ctx project (pre ++ (key, limit) :: post) q0 =
        update_keys ctx project (pre ++ post) q0).
Proof.
  intros Hauth Hpre. split; [|split; [reflexivity|split]].
  - intros Hknown Hbad.
    destruct (validate_rejects limit Hbad) as (explanation & Hrej).
    exists explanation. split.
    + unfold update. rewrite Hauth. simpl.
      rewrite update_keys_app, Hpre. simpl.
      unfold update_key. by rewrite Hknown, Hrej.
    + clear Hknown Hbad Hrej. revert q0 Hpre.
      induction pre as [|[k l] pre IH]; intros q0 Hpre Hskip; simpl in *.
      * congruence.
      * inversion Hskip as [|? ? Hk Hrest]; subst. simpl in Hk.
        unfold update_key in Hpre. rewrite Hk in Hpre. by apply IH.
  - intros n Hn. apply validate_accepts. simpl. split; [reflexivity|lia].
  - intros Hunknown. split.
    + unfold update_key. by rewrite Hunknown.
    + rewrite !update_keys_app, Hpre. simpl.
      unfold update_key. by rewrite Hunknown.
Qed.

End QuotaFacts.

Section QuotaRuns.
Import QuotaSets Scenario.

Lemma update_creates_witness :
  update (H:=engine) ctx0 "project" [("snapshots", PyInt 7)] quotas0 =
  (inr [("volumes", 10%Z); ("snapshots", 7%Z); ("gigabytes", 1000%Z)],
   <[("project", "snapshots") := 7%Z]> quotas0).
Proof.
  destruct (proj1 (update_creates_missing_row (H:=engine)
                     ctx0 "project" [] "snapshots" (PyInt 7) 7%Z [] quotas0
                     quotas0 eq_refl eq_refl eq_refl eq_refl eq_refl)
                  eq_refl) as (_ & _ & _ & Hreturns).
  exact (Hreturns _ eq_refl).
Defined.

(** C10, refuted as stated: a body with a good limit for one known key and
    [-2] for another is rejected with [HTTPBadRequest] after the good limit
    has been written to the table, when the good one comes first in the
    iteration order.  Whichever way a dictionary with the keys [volumes] and
    [gigabytes] is iterated, one of [{'volumes': 5, 'gigabytes': -2}] and
    [{'gigabytes': 5, 'volumes': -2}] is such a body.  Besides, the JSON
    value [true] is an instance of [int]: it is not rejected, and is written
    as the limit 1. *)
Lemma update_writes_before_rejecting :
  match update (H:=engine) ctx0 "project"
          [("volumes", PyInt 5); ("gigabytes", PyInt (-2))] quotas0 with
  | (inl (HTTPBadRequest _), q') =>
      quotas0 !! ("project", "volumes") = Some 10%Z
      /\ q' !! ("project", "volumes") = Some 5%Z
  | _ => False
  end
  /\ match update (H:=engine) ctx0 "project"
             [("gigabytes", PyInt 5); ("volumes", PyInt (-2))] quotas0 with
     | (inl (HTTPBadRequest _), q') =>
         quotas0 !! ("project", "gigabytes") = Some 1000%Z
         /\ q' !! ("project", "gigabytes") = Some 5%Z
     | _ => False
     end
  /\ match update (H:=engine) ctx0 "project"
             [("volumes", PyBool true)] quotas0 with
     | (inr _, q') => q' !! ("project", "volumes") = Some 1%Z
     | _ => False
     end.
Proof. vm_compute. repeat split. Qed.

(** A member of the project, where the authorizer lets members through, is
    stopped by the record store: [AdminRequired] becomes [HTTPForbidden]. *)
Example update_forbidden_for_member :
  update (H:=engine) member "project" [("volumes", PyInt 5)] quotas0 =
  (inl HTTPForbidden, quotas0).
Proof. reflexivity. Qed.

Lemma update_rejects_witness :
  exists explanation,
    update (H:=engine) ctx0 "project"
      [("backups", PyStr "many"); ("gigabytes", PyInt (-2));
       ("volumes", PyInt 5)] quotas0 =
    (inl (HTTPBadRequest explanation), quotas0)
    /\ (Forall (fun kv => in_QUOTAS (H:=engine) kv.1 = false)
               [("backups", PyStr "many")] -> quotas0 = quotas0).
Proof.
  apply (proj1 (update_rejects_bad_limit_at_its_key (H:=engine)
                  ctx0 "project" [("backups", PyStr "many")] "gigabytes"
                  (PyInt (-2)) [("volumes", PyInt 5)] quotas0 quotas0
                  eq_refl eq_refl) eq_refl).
  right. simpl. lia.
Defined.

End QuotaRuns.

(** ** The volume manager *)

Section ManagerFacts.
Import VolumeManager.

Lemma meta_get_set key value m :
  meta_get key (meta_set key value m) = Some value.
Proof.
  induction m as [|[k v] m IH]; simpl.
  - by rewrite String.eqb_refl.
  - destruct (String.eqb k key) eqn:E; simpl; by rewrite E.
Qed.

Lemma meta_get_set_other key key' value m :
  key <> key' -> meta_get key' (meta_set key value m) = meta_get key' m.
Proof.
  intros Hne. induction m as [|[k v] m IH]; simpl.
  - apply String.eqb_neq in Hne. by rewrite Hne.
  - destruct (String.eqb k key) eqn:E; simpl.
    + apply String.eqb_eq in E. subst k.
      apply String.eqb_neq in Hne. by rewrite Hne.
    + by rewrite IH.
Qed.

Lemma meta_get_delete_other key key' m :
  key <> key' -> meta_get key' (meta_delete key m) = meta_get key' m.
Proof.
  intros Hne. induction m as [|[k v] m IH]; simpl; [reflexivity|].
  destruct (String.eqb k key) eqn:E; simpl.
  - apply String.eqb_eq in E. subst k.
    apply String.eqb_neq in Hne. by rewrite Hne.
  - by rewrite IH.
Qed.

Lemma meta_get_delete key m : meta_get key (meta_delete key m) = None.
Proof.
  induction m as [|[k v] m IH]; simpl; [reflexivity|].
  destruct (String.eqb k key) eqn:E; simpl; [exact IH|by rewrite E].
Qed.

(** The quota engine's contract: rolling a reservation back restores the
    usage; committing it moves the delta into use. *)
Lemma reserve_rollback delta u held :
  reserve delta u = Some held -> rollback delta held = u.
Proof.
  unfold reserve, rollback. destruct (_ && _); [discriminate|].
  intros [= <-]. destruct u as [l i r]. simpl. f_equal. lia.
Qed.

Lemma reserve_commit delta u held :
  reserve delta u = Some held ->
  commit delta held = Usage (limit u) (in_use u + delta) (reserved u).
Proof.
  unfold reserve, commit. destruct (_ && _); [discriminate|].
  intros [= <-]. simpl. f_equal. lia.
Qed.

(** C2.  For a volume that is [available] with size [s]: extending to a
    size not above [s] raises [InvalidInput] and changes nothing; extending
    to a larger size, the quota reserved and the driver succeeding,
    persists the new size with the status back to [available]; and when
    the reservation is refused or the driver fails, the size is unchanged
    and the status is [error_extending]. *)
Theorem extend_outcomes driver volume_id new_size s v :
  vols s !! volume_id = Some v ->
  status v = "available" ->
  ((new_size <= size v)%Z ->
     exists reason,
       extend driver volume_id new_size s = (inl (InvalidInput reason), s))
  /\ ((size v < new_size)%Z -> driver = DriverOk ->
      forall held,
        reserve (new_size - size v) (gigabytes s) = Some held ->
        exists s' v',
          extend driver volume_id new_size s = (inr tt, s')
          /\ vols s' !! volume_id = Some v'
          /\ size v' = new_size /\ status v' = "available"
          /\ gigabytes s' =
             Usage (limit (gigabytes s))
                   (in_use (gigabytes s) + (new_size - size v))
                   (reserved (gigabytes s)))
  /\ ((size v < new_size)%Z ->
      reserve (new_size - size v) (gigabytes s) = None
      \/ (exists e, driver = DriverRaises e) ->
      exists s' v',
        extend driver volume_id new_size s = (inr tt, s')
        /\ vols s' !! volume_id = Some v'
        /\ size v' = size v /\ status v' = "error_extending"
        /\ gigabytes s' = gigabytes s).
Proof.
  intros Hv Hav.
  assert (str_ne (status v) "available" = false) as Hst
    by (by apply str_ne_false).
  assert ((size v < new_size)%Z ->
          extend driver volume_id new_size s =
          manager_extend_volume driver volume_id new_size
            (put volume_id (set_status "extending" v) s)) as Hdispatch.
  { intros Hgt. unfold extend, api_extend. rewrite Hv, Hst.
    assert ((new_size <=? size v)%Z = false) as -> by lia. reflexivity. }
  split; [|split].
  - intros Hle. unfold extend, api_extend. rewrite Hv, Hst.
    assert ((new_size <=? size v)%Z = true) as -> by lia. eauto.
  - intros Hgt -> held Hheld. rewrite (Hdispatch Hgt).
    unfold manager_extend_volume, put. simpl.
    rewrite lookup_insert_eq. simpl. rewrite Hheld.
    eexists _, _. split; [reflexivity|]. simpl.
    rewrite lookup_insert_eq. repeat split.
    by apply reserve_commit.
  - intros Hgt Hfail. rewrite (Hdispatch Hgt).
    unfold manager_extend_volume, put. simpl.
    rewrite lookup_insert_eq. simpl.
    destruct (reserve (new_size - size v) (gigabytes s)) as [held|] eqn:Hr.
    + destruct Hfail as [|(e & ->)]; [discriminate|].
      eexists _, _. split; [reflexivity|]. simpl.
      rewrite lookup_insert_eq. repeat split.
      by apply (reserve_rollback (new_size - size v)).
    + eexists _, _. split; [reflexivity|]. simpl.
      rewrite lookup_insert_eq. repeat split.
Qed.

(** C3.  For a dispatched delete of an existing volume that is not
    attached: when the driver raises [VolumeIsBusy] the manager returns
    [True] instead of raising, the record is still there with its other
    fields as they were, and its status, whatever it was, is [available];
    when the driver raises anything else, the exception is raised again and
    the record's status is [error_deleting].  In particular, the status
    [deleting] that the API layer wrote before it dispatched is rolled back
    to [available]. *)
Theorem delete_busy_is_caught volume_id s v :
  vols s !! volume_id = Some v ->
  attach_status v <> "attached" ->
  (forall name, exists s' v',
     manager_delete_volume (DriverRaises (VolumeIsBusy name)) volume_id s
       = (inr true, s')
     /\ vols s' !! volume_id = Some v'
     /\ status v' = "available"
     /\ v' = Vol "available" (attach_status v) (size v) (instance_uuid v)
                 (attached_host v) (mountpoint v) (admin_metadata v)
     /\ gigabytes s' = gigabytes s)
  /\ (forall e, (forall name, e <> VolumeIsBusy name) ->
      exists s' v',
        manager_delete_volume (DriverRaises e) volume_id s = (inl e, s')
        /\ vols s' !! volume_id = Some v'
        /\ status v' = "error_deleting"
        /\ v' = Vol "error_deleting" (attach_status v) (size v)
                    (instance_uuid v) (attached_host v) (mountpoint v)
                    (admin_metadata v))
  /\ (forall force has_snapshots s1 name,
        api_delete force has_snapshots volume_id s = (inr true, s1) ->
        (status <$> vols s1 !! volume_id) = Some "deleting"
        /\ (manager_delete_volume (DriverRaises (VolumeIsBusy name))
              volume_id s1).1 = inr true
        /\ (status <$>
              vols (manager_delete_volume (DriverRaises (VolumeIsBusy name))
                      volume_id s1).2 !! volume_id) = Some "available").
Proof.
  intros Hv Hdet. apply String.eqb_neq in Hdet.
  split; [|split].
  - intros name. unfold manager_delete_volume. rewrite Hv, Hdet.
    eexists _, _. split; [reflexivity|]. simpl.
    split; [apply lookup_insert_eq|]. repeat split.
  - intros e Hother. unfold manager_delete_volume. rewrite Hv, Hdet.
    destruct e;
      try (eexists _, _; split; [reflexivity|]; simpl;
           split; [apply lookup_insert_eq|]; repeat split).
    by destruct (Hother volume_name).
  - intros force has_snapshots s1 name. unfold api_delete. rewrite Hv, Hdet.
    destruct (negb force && negb (deletable (status v))); [discriminate|].
    destruct has_snapshots; [discriminate|]. intros [= <-].
    unfold manager_delete_volume, put. simpl.
    rewrite lookup_insert_eq. simpl. rewrite Hdet. simpl.
    rewrite !lookup_insert_eq. repeat split.
Qed.

(** C4.  An attach request in mode [rw], to an instance or to a host, on a
    detached volume whose [readonly] admin metadata is ['True'] raises
    [InvalidVolumeAttachMode]; afterwards the attach status is
    [detached], the status is [error_attaching], and the admin metadata
    holds [attached_mode] = [rw] next to the [readonly] key. *)
Theorem attach_rw_on_readonly_rejected
    driver volume_id instance host_name mount s v :
  vols s !! volume_id = Some v ->
  attach_status v = "detached" ->
  meta_get "readonly" (admin_metadata v) = Some "True" ->
  (is_Some instance /\ host_name = None)
  \/ (instance = None /\ is_Some host_name) ->
  exists s' v',
    manager_attach_volume driver volume_id instance host_name mount "rw" s
      = (inl (InvalidVolumeAttachMode "rw" volume_id), s')
    /\ vols s' !! volume_id = Some v'
    /\ attach_status v' = "detached"
    /\ status v' = "error_attaching"
    /\ meta_get "attached_mode" (admin_metadata v') = Some "rw"
    /\ meta_get "readonly" (admin_metadata v') = Some "True".
Proof.
  intros Hv Hdet Hro Htarget.
  unfold manager_attach_volume. rewrite Hv.
  assert (str_ne (attach_status v) "detached" = false) as ->
    by (by apply str_ne_false).
  destruct Htarget as [[[i ->] ->] | [-> [h ->]]]; rewrite Hro; simpl;
    (eexists _, _; split; [reflexivity|]; simpl;
     rewrite lookup_insert_eq; repeat split; simpl;
     [apply meta_get_set | by rewrite meta_get_set_other]).
Qed.

End ManagerFacts.

Section ManagerRuns.
Import VolumeManager Scenario.

Lemma extend_outcomes_witness :
  exists s' v',
    extend DriverOk "vol" 4 m0 = (inr tt, s')
    /\ vols s' !! "vol" = Some v'
    /\ size v' = 4%Z /\ status v' = "available"
    /\ gigabytes s' = Usage (-1) (2 + (4 - 2)) 0.
Proof.
  apply (proj1 (proj2 (extend_outcomes DriverOk "vol" 4 m0 vol2
                         eq_refl eq_refl))
               ltac:(simpl; lia) eq_refl (Usage (-1) 2 (0 + (4 - 2)))
               eq_refl).
Defined.

Lemma delete_busy_witness :
  status vol_deleting = "deleting"
  /\ exists s' v',
       manager_delete_volume (DriverRaises (VolumeIsBusy "fake")) "vol"
         m_deleting = (inr true, s')
       /\ vols s' !! "vol" = Some v'
       /\ status v' = "available"
       /\ v' = Vol "available" "detached" 2 None None None []
       /\ gigabytes s' = gigabytes m_deleting.
Proof.
  split; [reflexivity|].
  apply (proj1 (delete_busy_is_caught "vol" m_deleting vol_deleting eq_refl
                  ltac:(discriminate)) "fake").
Defined.

Lemma attach_rejected_witness :
  exists s' v',
    manager_attach_volume DriverOk "ro"
      (Some "12345678-1234-5678-1234-567812345678") None "/dev/sdf" "rw" m0
      = (inl (InvalidVolumeAttachMode "rw" "ro"), s')
    /\ vols s' !! "ro" = Some v'
    /\ attach_status v' = "detached"
    /\ status v' = "error_attaching"
    /\ meta_get "attached_mode" (admin_metadata v') = Some "rw"
    /\ meta_get "readonly" (admin_metadata v') = Some "True".
Proof.
  apply (attach_rw_on_readonly_rejected DriverOk "ro"
           (Some "12345678-1234-5678-1234-567812345678") None "/dev/sdf"
           m0 vol_ro eq_refl eq_refl eq_refl).
  left. split; [eexists; reflexivity | reflexivity].
Defined.

(** *** The manager tests of [cinder/tests/test_volume.py], replayed *)

(** [test_extend_volume]: extend at the API level. *)
Example test_extend_volume :
  (api_extend "vol" 3 (put "vol" (set_status "in-use" vol2) m0)).1
    = inl (InvalidVolume "Volume status must be available to extend.")
  /\ (api_extend "vol" 1 m0).1
     = inl (InvalidInput "New size for extend must be greater than current size.")
  /\ (api_extend "vol" 2 m0).1
     = inl (InvalidInput "New size for extend must be greater than current size.")
  /\ status <$> vols (api_extend "vol" 3 m0).2 !! "vol" = Some "extending".
Proof. vm_compute. repeat split. Qed.

(** [test_extend_volume_manager]: quota exceeded, then a driver exception,
    then driver success. *)
Example test_extend_volume_manager :
  let after_quota := (manager_extend_volume DriverOk "vol" 4 m_full).2 in
  let after_driver :=
    (manager_extend_volume (DriverRaises (CinderException "fake exception"))
       "vol" 4 (set_usage roomy after_quota)).2 in
  let after_success :=
    (manager_extend_volume DriverOk "vol" 4 after_driver).2 in
  ((fun v => (size v, status v)) <$> vols after_quota !! "vol")
    = Some (2%Z, "error_extending")
  /\ ((fun v => (size v, status v)) <$> vols after_driver !! "vol")
     = Some (2%Z, "error_extending")
  /\ ((fun v => (size v, status v)) <$> vols after_success !! "vol")
     = Some (4%Z, "available").
Proof. vm_compute. repeat split. Qed.

(** [test_delete_busy_volume]: the volume survives a busy driver, and is
    deleted once the driver is willing. *)
Example test_delete_busy_volume :
  let busy :=
    manager_delete_volume (DriverRaises (VolumeIsBusy "fake")) "vol" m0 in
  busy.1 = inr true
  /\ (status <$> vols busy.2 !! "vol") = Some "available"
  /\ vols (manager_delete_volume DriverOk "vol" busy.2).2 !! "vol" = None.
Proof. vm_compute. repeat split. Qed.

(** [test_run_attach_detach_volume_for_instance]: an attached volume cannot
    be deleted; detached, it can. *)
Example test_run_attach_detach_volume_for_instance :
  let attached :=
    (manager_attach_volume DriverOk "ro"
       (Some "12345678-1234-5678-1234-567812345678") None "/dev/sdf" "ro"
       m0).2 in
  let refused := manager_delete_volume DriverOk "ro" attached in
  let detached := (manager_detach_volume "ro" attached).2 in
  ((fun v => (status v, attach_status v)) <$> vols attached !! "ro")
    = Some ("in-use", "attached")
  /\ refused = (inl (VolumeAttached "ro"), attached)
  /\ (status <$> vols detached !! "ro") = Some "available"
  /\ vols (manager_delete_volume DriverOk "ro" detached).2 !! "ro" = None.
Proof. vm_compute. repeat split. Qed.

(** [test_cant_delete_volume_in_use], [test_force_delete_volume] and
    [test_cant_force_delete_attached_volume]: delete at the API level. *)
Example test_api_delete :
  (api_delete false false "vol" (put "vol" (set_status "in-use" vol2) m0)).1
    = inl (InvalidVolume "Volume status must be available or error")
  /\ (api_delete false false "vol"
        (put "vol" (set_status "error_deleting" vol2) m0)).1
     = inl (InvalidVolume "Volume status must be available or error")
  /\ (status <$>
        vols (api_delete true false "vol"
                (put "vol" (set_status "error_deleting" vol2) m0)).2
          !! "vol") = Some "deleting"
  /\ (api_delete true false "vol"
        (put "vol" (Vol "in-use" "attached" 2 None None None []) m0)).1
     = inl (VolumeAttached "vol").
Proof. vm_compute. repeat split. Qed.

(** [test_run_manager_attach_detach_volume_with_wrong_attach_mode]: [rw]
    on the read-only volume, to an instance, and again, the status put
    back to [available], to a host. *)
Example test_run_manager_attach_detach_volume_with_wrong_attach_mode :
  let first :=
    manager_attach_volume DriverOk "ro"
      (Some "12345678-1234-5678-1234-567812345678") None "/dev/sdf" "rw"
      m0 in
  let reset :=
    match vols first.2 !! "ro" with
    | Some v => put "ro" (set_status "available" v) first.2
    | None => first.2
    end in
  let second :=
    manager_attach_volume DriverOk "ro" None (Some "fake_host") "/dev/sdf"
      "rw" reset in
  let seen (s : state) :=
    (fun v => (status v, attach_status v, admin_metadata v))
      <$> vols s !! "ro" in
  first.1 = inl (InvalidVolumeAttachMode "rw" "ro")
  /\ seen first.2 =
     Some ("error_attaching", "detached",
           [("readonly", "True"); ("attached_mode", "rw")])
  /\ second.1 = inl (InvalidVolumeAttachMode "rw" "ro")
  /\ seen second.2 =
     Some ("error_attaching", "detached",
           [("readonly", "True"); ("attached_mode", "rw")]).
Proof. vm_compute. repeat split. Qed.

(** [test_run_attach_detach_volume_with_attach_mode]: [ro] on the
    read-only volume, to a host, and the detach that follows. *)
Example test_run_attach_detach_volume_with_attach_mode :
  let attached :=
    (manager_attach_volume DriverOk "ro" None (Some "fake_host") "/dev/sdf"
       "ro" m0).2 in
  let detached := (manager_detach_volume "ro" attached).2 in
  vols attached !! "ro" =
    Some (Vol "in-use" "attached" 1 None (Some "fake-host")
              (Some "/dev/sdf")
              [("readonly", "True"); ("attached_mode", "ro")])
  /\ vols detached !! "ro" =
     Some (Vol "available" "detached" 1 None None None
               [("readonly", "True")]).
Proof. vm_compute. repeat split. Qed.

End ManagerRuns.

(** ** The LVM driver's migrate_volume *)

Section MigrateFacts.
Import LVM.

(** C7.  The driver declines, with [(False, None)], when the host has no
    location info, when the location info is malformed, when it names
    another driver class or another host, and when the volume is not
    [available]; it returns [moved=True] exactly when the location info
    names this driver class and this host and the volume is
    [available]. *)
Theorem migrate_declines_unless_exact_match
    hostname create_export volume_status location_info :
  let result :=
    migrate_volume hostname create_export volume_status location_info in
  (location_info = None -> result = (false, None))
  /\ (forall info, location_info = Some info ->
        parse_location_info info = None -> result = (false, None))
  /\ (forall info loc, location_info = Some info ->
        parse_location_info info = Some loc ->
        dest_type loc <> "LVMVolumeDriver" -> result = (false, None))
  /\ (forall info loc, location_info = Some info ->
        parse_location_info info = Some loc ->
        dest_hostname loc <> hostname -> result = (false, None))
  /\ (volume_status <> "available" -> result = (false, None))
  /\ (result.1 = true <->
      volume_status = "available"
      /\ exists info loc,
           location_info = Some info
           /\ parse_location_info info = Some loc
           /\ dest_type loc = "LVMVolumeDriver"
           /\ dest_hostname loc = hostname)
  /\ (result.1 = false -> result = (false, None)).
Proof.
  unfold migrate_volume. cbv zeta.
  destruct (str_ne volume_status "available") eqn:Hs.
  { apply str_ne_true in Hs. repeat split; try done.
    intros (? & _). contradiction. }
  apply str_ne_false in Hs.
  destruct location_info as [info|]; cycle 1.
  { repeat split; try done. intros (_ & ? & ? & ? & _). discriminate. }
  destruct (parse_location_info info) as [loc|] eqn:Hp; cycle 1.
  { repeat split; try done.
    intros (_ & ? & ? & [= <-] & ? & _). congruence. }
  destruct (str_ne (dest_type loc) "LVMVolumeDriver") eqn:Ht; simpl.
  { apply str_ne_true in Ht. repeat split; try done.
    intros (_ & ? & ? & [= <-] & ? & ? & _). congruence. }
  apply str_ne_false in Ht.
  destruct (str_ne (dest_hostname loc) hostname) eqn:Hh; simpl.
  { apply str_ne_true in Hh. repeat split; try done.
    intros (_ & ? & ? & [= <-] & ? & _ & ?). congruence. }
  apply str_ne_false in Hh.
  split; [discriminate|].
  split; [intros ? [= <-]; congruence|].
  split; [intros ? ? [= <-] ? ?; congruence|].
  split; [intros ? ? [= <-] ? ?; congruence|].
  split; [contradiction|].
  split; [|discriminate].
  split; [intros _; eauto 10|reflexivity].
Qed.

Lemma migrate_witness :
  migrate_volume "thishost" None "available" None = (false, None)
  /\ ((migrate_volume "thishost" None "available"
         (Some "LVMVolumeDriver:thishost:cinder-volumes:default:0")).1
      = true).
Proof.
  destruct (migrate_declines_unless_exact_match "thishost" None "available"
              None) as (Hnone & _).
  destruct (migrate_declines_unless_exact_match "thishost" None "available"
              (Some "LVMVolumeDriver:thishost:cinder-volumes:default:0"))
    as (_ & _ & _ & _ & _ & Hexact & _).
  split; [exact (Hnone eq_refl)|].
  apply Hexact. split; [reflexivity|].
  eexists _, _. split; [reflexivity|]. split; [reflexivity|].
  split; reflexivity.
Defined.

(** *** The driver tests of [cinder/tests/test_volume.py], replayed *)

Example test_lvm_migrate_volume_no_loc_info :
  migrate_volume "thishost" None "available" None = (false, None).
Proof. reflexivity. Qed.

Example test_lvm_migrate_volume_bad_loc_info :
  migrate_volume "thishost" None "available" (Some "foo") = (false, None).
Proof. reflexivity. Qed.

Example test_lvm_migrate_volume_diff_driver :
  migrate_volume "thishost" None "available" (Some "FooDriver:foo:bar")
  = (false, None).
Proof. reflexivity. Qed.

Example test_lvm_migrate_volume_diff_host :
  migrate_volume "thishost" None "available"
    (Some "LVMVolumeDriver:foo:bar") = (false, None).
Proof. reflexivity. Qed.

Example test_lvm_migrate_volume_in_use :
  migrate_volume "thishost" None "in-use"
    (Some "LVMVolumeDriver:thishost:bar") = (false, None).
Proof. reflexivity. Qed.

Example test_lvm_migrate_volume_proceed :
  migrate_volume "thishost" None "available"
    (Some "LVMVolumeDriver:thishost:cinder-volumes:default:0")
  = (true, None).
Proof. reflexivity. Qed.

End MigrateFacts.

(** * Further properties of the backup API *)

Section BackupCalls.
Context `{Collaborators}.
Import BackupAPI.

(** *** Each call, evaluated *)

Lemma check_policy_cases ctx action w :
  check_policy ctx action w =
  if policy_enforce ctx (String.append "backup:" action)
  then Some (inr tt, w)
  else Some (inl (PolicyNotAuthorized (String.append "backup:" action)), w).
Proof. unfold check_policy. by destruct (policy_enforce _ _). Qed.

Lemma get_cases ctx backup_id w :
  get ctx backup_id w =
  if policy_enforce ctx "backup:get" then
    match backups (db w) !! backup_id with
    | Some b => Some (inr b, w)
    | None => Some (inl (BackupNotFound backup_id), w)
    end
  else Some (inl (PolicyNotAuthorized "backup:get"), w).
Proof.
  unfold get, bind. rewrite check_policy_cases.
  change (String.append "backup:" "get") with "backup:get".
  destruct (policy_enforce ctx "backup:get"); [|reflexivity].
  unfold Db.backup_get, bind, gets. simpl.
  by destruct (backups (db w) !! backup_id).
Qed.

Lemma delete_cases ctx backup_id w :
  delete ctx backup_id w =
  if policy_enforce ctx "backup:delete" then
    if policy_enforce ctx "backup:get" then
      match backups (db w) !! backup_id with
      | Some b =>
          if String.eqb (bk_status b) "available"
             || String.eqb (bk_status b) "error"
          then
            Some (inr tt,
                  MkWorld
                    (Store (volumes (db w))
                           (<[backup_id := Db.set_backup_status "deleting" b]>
                              (backups (db w)))
                           (services (db w)))
                    (clock w)
                    (trace w ++ [EvBackupUpdate backup_id "deleting";
                                 EvCast (bk_host b) (DeleteBackup (bk_id b))]))
          else
            Some (inl (InvalidBackup
                         "Backup status must be available or error"), w)
      | None => Some (inl (BackupNotFound backup_id), w)
      end
    else Some (inl (PolicyNotAuthorized "backup:get"), w)
  else Some (inl (PolicyNotAuthorized "backup:delete"), w).
Proof.
  unfold delete. unfold bind at 1. rewrite check_policy_cases.
  change (String.append "backup:" "delete") with "backup:delete".
  destruct (policy_enforce ctx "backup:delete"); [|reflexivity].
  unfold bind at 1. rewrite get_cases.
  destruct (policy_enforce ctx "backup:get"); [|reflexivity].
  destruct (backups (db w) !! backup_id) as [b|] eqn:Hb; [|reflexivity].
  destruct (String.eqb (bk_status b) "available"
            || String.eqb (bk_status b) "error"); simpl; [|reflexivity].
  unfold Db.backup_update, backup_rpcapi, set_db, emit, modify, bind, gets.
  simpl. rewrite Hb. simpl. by rewrite <- app_assoc.
Qed.

Lemma create_cases ctx name description volume_id container az w :
  create ctx name description volume_id container az w =
  if policy_enforce ctx "backup:create" then
    match volumes (db w) !! volume_id with
    | Some v =>
        create ctx name description volume_id container az w
    | None => Some (inl (VolumeNotFound volume_id), w)
    end
  else Some (inl (PolicyNotAuthorized "backup:create"), w).
Proof.
  destruct (policy_enforce ctx "backup:create") eqn:Hpol.
  - destruct (volumes (db w) !! volume_id) eqn:Hv; [reflexivity|].
    unfold create. unfold bind at 1.
    rewrite (check_policy_allowed _ "create" _ Hpol).
    unfold volume_api_get, Db.volume_get, bind, gets. simpl. by rewrite Hv.
  - unfold create. unfold bind at 1.
    by rewrite (check_policy_denied _ "create" _ Hpol).
Qed.

Lemma restore_cases fuel ctx backup_id volume_id w :
  restore fuel ctx backup_id volume_id w =
  if policy_enforce ctx "backup:restore" then
    if policy_enforce ctx "backup:get" then
      match backups (db w) !! backup_id with
      | Some b => restore fuel ctx backup_id volume_id w
      | None => Some (inl (BackupNotFound backup_id), w)
      end
    else Some (inl (PolicyNotAuthorized "backup:get"), w)
  else Some (inl (PolicyNotAuthorized "backup:restore"), w).
Proof.
  destruct (policy_enforce ctx "backup:restore") eqn:Hr; cycle 1.
  { rewrite restore_split. unfold bind at 1.
    by rewrite (check_policy_denied _ "restore" _ Hr). }
  destruct (policy_enforce ctx "backup:get") eqn:Hg; cycle 1.
  { rewrite restore_split. unfold bind at 1.
    rewrite (check_policy_allowed _ "restore" _ Hr).
    unfold bind at 1. by rewrite get_cases, Hg. }
  destruct (backups (db w) !! backup_id) eqn:Hb; [reflexivity|].
  rewrite restore_split. unfold bind at 1.
  rewrite (check_policy_allowed _ "restore" _ Hr).
  unfold bind at 1. by rewrite get_cases, Hg, Hb.
Qed.

Lemma restore_given_cases fuel ctx backup_id volume_id w b :
  policy_enforce ctx "backup:restore" = true ->
  policy_enforce ctx "backup:get" = true ->
  backups (db w) !! backup_id = Some b ->
  restore fuel ctx backup_id (Some volume_id) w =
  if str_ne (bk_status b) "available" then
    Some (inl (InvalidBackup "Backup status must be available"), w)
  else match bk_size b with
       | None =>
           Some (inl (InvalidBackup "Backup to be restored has invalid size"),
                 w)
       | Some size =>
           match volumes (db w) !! volume_id with
           | None => Some (inl (VolumeNotFound volume_id), w)
           | Some v =>
               if (vol_size v <? size)%Z then
                 Some (inl (InvalidVolume
                   (String.append "volume size "
                     (String.append (Py.fmt_d (vol_size v))
                       (String.append
                          " is too small to restore backup of size "
                          (String.append (Py.fmt_d size) "."))))), w)
               else if str_ne (vol_status v) "available" then
                 Some (inl (InvalidVolume
                              "Volume to be restored to must be available"), w)
               else
                 Some (inr (Reply backup_id volume_id),
                       MkWorld
                         (Store
                            (<[volume_id :=
                                 Db.set_volume_status "restoring-backup" v]>
                               (volumes (db w)))
                            (<[backup_id :=
                                 Db.set_backup_status "restoring" b]>
                               (backups (db w)))
                            (services (db w)))
                         (clock w)
                         (trace w ++
                            [EvBackupUpdate backup_id "restoring";
                             EvVolumeUpdate volume_id "restoring-backup";
                             EvCast (bk_host b)
                                    (RestoreBackup (bk_id b) volume_id)]))
           end
       end.
Proof.
  intros Hr Hg Hb. rewrite (restore_eval _ _ _ _ _ _ Hr Hg Hb).
  destruct (str_ne (bk_status b) "available"); [reflexivity|].
  destruct (bk_size b) as [size|]; [|reflexivity].
  destruct (volumes (db w) !! volume_id) as [v|] eqn:Hv.
  - unfold bind. rewrite (restore_target_given _ _ _ _ _ _ _ Hv).
    destruct (vol_size v <? size)%Z eqn:Hlt; [reflexivity|]. simpl.
    rewrite (restore_onto_eval _ _ _ _ _ _ _ _ Hb Hv).
    destruct (str_ne (vol_status v) "available"); [reflexivity|].
    apply Z.ltb_ge in Hlt.
    assert ((size >? vol_size v)%Z = false) as -> by lia. reflexivity.
  - unfold bind, restore_target, volume_api_get, Db.volume_get, bind, gets.
    simpl. by rewrite Hv.
Qed.

(** *** Failure leaves no trace *)


(** X2.  [delete] and [restore] read the backup through [get], so they need
    the [backup:get] permission besides their own: without it they raise
    [PolicyNotAuthorized] for [backup:get] and change nothing, whatever the
    backup, the destination and the fuel. *)
Theorem get_permission_guards_delete_and_restore ctx backup_id w :
  policy_enforce ctx "backup:get" = false ->
  (policy_enforce ctx "backup:delete" = true ->
     delete ctx backup_id w =
     Some (inl (PolicyNotAuthorized "backup:get"), w))
  /\ (policy_enforce ctx "backup:restore" = true ->
      forall fuel volume_id,
        restore fuel ctx backup_id volume_id w =
        Some (inl (PolicyNotAuthorized "backup:get"), w)).
Proof.
  intros Hg. split.
  - intros Hd. by rewrite delete_cases, Hd, Hg.
  - intros Hr fuel volume_id. by rewrite restore_cases, Hr, Hg.
Qed.

(** *** [delete] *)

(** X3.  [delete] of an existing backup by a caller with both permissions:
    a backup that is neither [available] nor [error] makes it raise
    [InvalidBackup], nothing changed; otherwise only the status of that
    backup row changes, to [deleting], and then [delete_backup] is cast to
    the backup's host. *)
Theorem delete_marks_then_casts ctx backup_id w b :
  policy_enforce ctx "backup:delete" = true ->
  policy_enforce ctx "backup:get" = true ->
  backups (db w) !! backup_id = Some b ->
  (bk_status b <> "available" -> bk_status b <> "error" ->
     delete ctx backup_id w =
     Some (inl (InvalidBackup "Backup status must be available or error"), w))
  /\ (bk_status b = "available" \/ bk_status b = "error" ->
      exists w',
        delete ctx backup_id w = Some (inr tt, w')
        /\ backups (db w') =
           <[backup_id := Db.set_backup_status "deleting" b]> (backups (db w))
        /\ volumes (db w') = volumes (db w)
        /\ services (db w') = services (db w)
        /\ clock w' = clock w
        /\ trace w' =
           (trace w ++ [EvBackupUpdate backup_id "deleting";
                        EvCast (bk_host b) (DeleteBackup (bk_id b))])%list).
Proof.
  intros Hd Hg Hb. rewrite delete_cases, Hd, Hg, Hb. split.
  - intros Ha He. apply String.eqb_neq in Ha, He. by rewrite Ha, He.
  - intros Hok.
    assert (String.eqb (bk_status b) "available"
            || String.eqb (bk_status b) "error" = true) as ->.
    { apply orb_true_iff. destruct Hok as [-> | ->]; [left|right]; reflexivity. }
    eexists. split; [reflexivity|]. simpl. repeat split.
Qed.

(** *** What a successful call has checked and what it has touched *)

Lemma create_inv
    ctx name description volume_id container az w b w' :
  create ctx name description volume_id container az w = Some (inr b, w') ->
  exists v,
    volumes (db w) !! volume_id = Some v
    /\ vol_status v = "available"
    /\ (exists srv, In srv (services (db w)) /\ srv_topic srv = backup_topic /\
          srv_availability_zone srv = vol_availability_zone v /\
          srv_host srv = (Py.partition "@" (vol_host v)).1.1 /\
          srv_disabled srv = false /\ service_is_up srv = true)
    /\ volumes (db w') =
       <[volume_id := Db.set_volume_status "backing-up" v]> (volumes (db w))
    /\ backups (db w') = <[bk_id b := b]> (backups (db w))
    /\ services (db w') = services (db w)
    /\ clock w' = clock w
    /\ bk_user_id b = user_id ctx /\ bk_project_id b = project_id ctx
    /\ bk_display_name b = name /\ bk_display_description b = description
    /\ bk_volume_id b = volume_id /\ bk_container b = container.
Proof.
  rewrite create_cases.
  destruct (policy_enforce ctx "backup:create") eqn:Hpol; [|discriminate].
  destruct (volumes (db w) !! volume_id) as [v|] eqn:Hv; [|discriminate].
  rewrite (create_eval _ _ _ _ _ _ _ _ Hpol Hv). cbv zeta.
  destruct (str_ne (vol_status v) "available") eqn:Hs; [discriminate|].
  destruct (any_service_matches _ _ _) eqn:Hm; [|discriminate]. simpl.
  intros [= <- <-]. exists v. simpl.
  split; [reflexivity|]. split; [by apply str_ne_false|].
  split; [by apply service_enabled_iff|]. repeat split.
Qed.

Lemma restore_given_inv fuel ctx backup_id volume_id w r w' :
  restore fuel ctx backup_id (Some volume_id) w = Some (inr r, w') ->
  r = Reply backup_id volume_id
  /\ exists b v size,
       backups (db w) !! backup_id = Some b
       /\ volumes (db w) !! volume_id = Some v
       /\ bk_status b = "available" /\ bk_size b = Some size
       /\ vol_status v = "available" /\ (size <= vol_size v)%Z
       /\ backups (db w') =
          <[backup_id := Db.set_backup_status "restoring" b]> (backups (db w))
       /\ volumes (db w') =
          <[volume_id := Db.set_volume_status "restoring-backup" v]>
            (volumes (db w))
       /\ services (db w') = services (db w)
       /\ clock w' = clock w.
Proof.
  rewrite restore_cases.
  destruct (policy_enforce ctx "backup:restore") eqn:Hr; [|discriminate].
  destruct (policy_enforce ctx "backup:get") eqn:Hg; [|discriminate].
  destruct (backups (db w) !! backup_id) as [b|] eqn:Hb; [|discriminate].
  rewrite (restore_given_cases _ _ _ _ _ _ Hr Hg Hb).
  destruct (str_ne (bk_status b) "available") eqn:Hs; [discriminate|].
  destruct (bk_size b) as [size|] eqn:Hsize; [|discriminate].
  destruct (volumes (db w) !! volume_id) as [v|] eqn:Hv; [|discriminate].
  destruct (vol_size v <? size)%Z eqn:Hlt; [discriminate|].
  destruct (str_ne (vol_status v) "available") eqn:Hvs; [discriminate|].
  intros [= <- <-]. split; [reflexivity|].
  exists b, v, size. simpl. apply Z.ltb_ge in Hlt.
  apply str_ne_false in Hs, Hvs. repeat split; assumption.
Qed.

Lemma delete_inv ctx backup_id w w' :
  delete ctx backup_id w = Some (inr tt, w') ->
  exists b,
    backups (db w) !! backup_id = Some b
    /\ (bk_status b = "available" \/ bk_status b = "error")
    /\ backups (db w') =
       <[backup_id := Db.set_backup_status "deleting" b]> (backups (db w))
    /\ volumes (db w') = volumes (db w)
    /\ services (db w') = services (db w)
    /\ clock w' = clock w.
Proof.
  rewrite delete_cases.
  destruct (policy_enforce ctx "backup:delete"); [|discriminate].
  destruct (policy_enforce ctx "backup:get"); [|discriminate].
  destruct (backups (db w) !! backup_id) as [b|] eqn:Hb; [|discriminate].
  destruct (String.eqb (bk_status b) "available") eqn:Ha; simpl.
  - intros [= <-]. exists b. apply String.eqb_eq in Ha. simpl.
    repeat split. by left.
  - destruct (String.eqb (bk_status b) "error") eqn:He; [|discriminate].
    intros [= <-]. exists b. apply String.eqb_eq in He. simpl.
    repeat split. by right.
Qed.

(** X4.  A [create] that succeeds was given an [available] volume with a
    matching backup service; it has changed the status of that volume and
    nothing else about the volumes, added the returned row and nothing else
    to the backups, not slept, and filled the row's owner, name,
    description, volume and container from the request. *)
Theorem create_success_frame
    ctx name description volume_id container az w b w' :
  create ctx name description volume_id container az w = Some (inr b, w') ->
  exists v,
    volumes (db w) !! volume_id = Some v
    /\ vol_status v = "available"
    /\ (exists srv, In srv (services (db w)) /\ srv_topic srv = backup_topic /\
          srv_availability_zone srv = vol_availability_zone v /\
          srv_host srv = (Py.partition "@" (vol_host v)).1.1 /\
          srv_disabled srv = false /\ service_is_up srv = true)
    /\ volumes (db w') =
       <[volume_id := Db.set_volume_status "backing-up" v]> (volumes (db w))
    /\ backups (db w') = <[bk_id b := b]> (backups (db w))
    /\ services (db w') = services (db w)
    /\ clock w' = clock w
    /\ bk_user_id b = user_id ctx /\ bk_project_id b = project_id ctx
    /\ bk_display_name b = name /\ bk_display_description b = description
    /\ bk_volume_id b = volume_id /\ bk_container b = container.
Proof. apply create_inv. Qed.

(** X5.  A [restore] onto a given volume that succeeds was given an
    [available] backup with a size and an [available] volume at least that
    large; it has changed the status of that backup and of that volume and
    nothing else in the store, and it has not slept, whatever the fuel. *)
Theorem restore_given_success_frame fuel ctx backup_id volume_id w r w' :
  restore fuel ctx backup_id (Some volume_id) w = Some (inr r, w') ->
  r = Reply backup_id volume_id
  /\ exists b v size,
       backups (db w) !! backup_id = Some b
       /\ volumes (db w) !! volume_id = Some v
       /\ bk_status b = "available" /\ bk_size b = Some size
       /\ vol_status v = "available" /\ (size <= vol_size v)%Z
       /\ backups (db w') =
          <[backup_id := Db.set_backup_status "restoring" b]> (backups (db w))
       /\ volumes (db w') =
          <[volume_id := Db.set_volume_status "restoring-backup" v]>
            (volumes (db w))
       /\ services (db w') = services (db w)
       /\ clock w' = clock w.
Proof. apply restore_given_inv. Qed.

(** *** Transitional statuses lock the rows *)

Lemma created_backup_status
    {ctx name description volume_id container az w b w'} :
  create ctx name description volume_id container az w = Some (inr b, w') ->
  bk_status b = "creating" /\ bk_volume_id b = volume_id.
Proof.
  rewrite create_cases.
  destruct (policy_enforce ctx "backup:create") eqn:Hpol; [|discriminate].
  destruct (volumes (db w) !! volume_id) as [v|] eqn:Hv; [|discriminate].
  rewrite (create_eval _ _ _ _ _ _ _ _ Hpol Hv). cbv zeta.
  repeat case_match; try discriminate. by intros [= <- <-].
Qed.

Lemma restore_unavailable_backup fuel ctx backup_id volume_id w b :
  policy_enforce ctx "backup:restore" = true ->
  policy_enforce ctx "backup:get" = true ->
  backups (db w) !! backup_id = Some b ->
  bk_status b <> "available" ->
  restore fuel ctx backup_id volume_id w =
  Some (inl (InvalidBackup "Backup status must be available"), w).
Proof.
  intros Hr Hg Hb Hs. rewrite (restore_eval _ _ _ _ _ _ Hr Hg Hb).
  apply str_ne_true in Hs. by rewrite Hs.
Qed.

Lemma delete_busy_backup ctx backup_id w b :
  policy_enforce ctx "backup:delete" = true ->
  policy_enforce ctx "backup:get" = true ->
  backups (db w) !! backup_id = Some b ->
  bk_status b <> "available" -> bk_status b <> "error" ->
  delete ctx backup_id w =
  Some (inl (InvalidBackup "Backup status must be available or error"), w).
Proof.
  intros Hd Hg Hb Ha He. rewrite delete_cases, Hd, Hg, Hb.
  apply String.eqb_neq in Ha, He. by rewrite Ha, He.
Qed.

Lemma create_unavailable_volume ctx name description volume_id container az
    w v :
  policy_enforce ctx "backup:create" = true ->
  volumes (db w) !! volume_id = Some v ->
  vol_status v <> "available" ->
  create ctx name description volume_id container az w =
  Some (inl (InvalidVolume "Volume to be backed up must be available"), w).
Proof.
  intros Hpol Hv Hs. rewrite (create_eval _ _ _ _ _ _ _ _ Hpol Hv).
  apply str_ne_true in Hs. by rewrite Hs.
Qed.

Lemma restore_onto_unavailable_volume fuel ctx backup_id volume_id w v :
  volumes (db w) !! volume_id = Some v ->
  vol_status v <> "available" ->
  exists e, restore fuel ctx backup_id (Some volume_id) w = Some (inl e, w).
Proof.
  intros Hv Hs. rewrite restore_cases.
  destruct (policy_enforce ctx "backup:restore") eqn:Hr; [|eauto].
  destruct (policy_enforce ctx "backup:get") eqn:Hg; [|eauto].
  destruct (backups (db w) !! backup_id) as [b|] eqn:Hb; [|eauto].
  rewrite (restore_given_cases _ _ _ _ _ _ Hr Hg Hb), Hv.
  apply str_ne_true in Hs. rewrite Hs.
  repeat case_match; eauto.
Qed.

(** X6.  After a [create] that succeeded, the volume is locked and the new
    backup is not ready: another [create] on the volume raises
    [InvalidVolume], no [restore] onto the volume succeeds, and [restore]
    and [delete] of the new backup raise [InvalidBackup]; none of these
    calls changes anything. *)
Theorem create_locks_volume_and_backup
    ctx name description volume_id container az w b w' :
  create ctx name description volume_id container az w = Some (inr b, w') ->
  (forall name' description' container' az',
     create ctx name' description' volume_id container' az' w' =
     Some (inl (InvalidVolume "Volume to be backed up must be available"), w'))
  /\ (forall ctx' fuel backup_id, exists e,
        restore fuel ctx' backup_id (Some volume_id) w' = Some (inl e, w'))
  /\ (forall ctx' fuel destination,
        policy_enforce ctx' "backup:restore" = true ->
        policy_enforce ctx' "backup:get" = true ->
        restore fuel ctx' (bk_id b) destination w' =
        Some (inl (InvalidBackup "Backup status must be available"), w'))
  /\ (forall ctx',
        policy_enforce ctx' "backup:delete" = true ->
        policy_enforce ctx' "backup:get" = true ->
        delete ctx' (bk_id b) w' =
        Some (inl (InvalidBackup "Backup status must be available or error"),
              w')).
Proof.
  intros Hrun.
  assert (policy_enforce ctx "backup:create" = true) as Hpol.
  { rewrite create_cases in Hrun.
    by destruct (policy_enforce ctx "backup:create"). }
  destruct (created_backup_status Hrun) as [Hst _].
  destruct (create_inv _ _ _ _ _ _ _ _ _ Hrun)
    as (v & Hv & _ & _ & Hvols & Hbks & _).
  assert (volumes (db w') !! volume_id =
          Some (Db.set_volume_status "backing-up" v)) as Hv'
    by (rewrite Hvols; apply lookup_insert_eq).
  assert (backups (db w') !! bk_id b = Some b) as Hb'
    by (rewrite Hbks; apply lookup_insert_eq).
  repeat apply conj.
  - intros. by apply (create_unavailable_volume _ _ _ _ _ _ _ _ Hpol Hv').
  - intros. by apply (restore_onto_unavailable_volume _ _ _ _ _ _ Hv').
  - intros ctx' fuel destination Hr Hg.
    apply (restore_unavailable_backup _ _ _ _ _ _ Hr Hg Hb').
    by rewrite Hst.
  - intros ctx' Hd Hg.
    apply (delete_busy_backup _ _ _ _ Hd Hg Hb'); by rewrite Hst.
Qed.

(** X7.  After a [restore] onto a given volume that succeeded, the backup
    and the volume are locked: [restore] of the backup again, onto any
    destination, and [delete] of it raise [InvalidBackup]; [create] on the
    volume raises [InvalidVolume]; and no [restore] of any backup onto the
    volume succeeds; none of these calls changes anything. *)
Theorem restore_locks_backup_and_volume fuel ctx backup_id volume_id w r w' :
  restore fuel ctx backup_id (Some volume_id) w = Some (inr r, w') ->
  (forall ctx' fuel' destination,
     policy_enforce ctx' "backup:restore" = true ->
     policy_enforce ctx' "backup:get" = true ->
     restore fuel' ctx' backup_id destination w' =
     Some (inl (InvalidBackup "Backup status must be available"), w'))
  /\ (forall ctx',
        policy_enforce ctx' "backup:delete" = true ->
        policy_enforce ctx' "backup:get" = true ->
        delete ctx' backup_id w' =
        Some (inl (InvalidBackup "Backup status must be available or error"),
              w'))
  /\ (forall ctx' name description container az,
        policy_enforce ctx' "backup:create" = true ->
        create ctx' name description volume_id container az w' =
        Some (inl (InvalidVolume "Volume to be backed up must be available"),
              w'))
  /\ (forall ctx' fuel' backup_id', exists e,
        restore fuel' ctx' backup_id' (Some volume_id) w' = Some (inl e, w')).
Proof.
  intros Hrun.
  destruct (restore_given_inv _ _ _ _ _ _ _ Hrun)
    as (_ & b & v & size & _ & _ & _ & _ & _ & _ & Hbks & Hvols & _).
  assert (volumes (db w') !! volume_id =
          Some (Db.set_volume_status "restoring-backup" v)) as Hv'
    by (rewrite Hvols; apply lookup_insert_eq).
  assert (backups (db w') !! backup_id =
          Some (Db.set_backup_status "restoring" b)) as Hb'
    by (rewrite Hbks; apply lookup_insert_eq).
  repeat apply conj.
  - intros ctx' fuel' destination Hr Hg.
    by apply (restore_unavailable_backup _ _ _ _ _ _ Hr Hg Hb').
  - intros ctx' Hd Hg. by apply (delete_busy_backup _ _ _ _ Hd Hg Hb').
  - intros ctx' name description container az Hc.
    by apply (create_unavailable_volume _ _ _ _ _ _ _ _ Hc Hv').
  - intros. by apply (restore_onto_unavailable_volume _ _ _ _ _ _ Hv').
Qed.

(** X8.  After a [delete] that succeeded the backup is locked: [delete] of
    it again and [restore] of it, onto any destination, raise
    [InvalidBackup] and change nothing. *)
Theorem delete_locks_backup ctx backup_id w w' :
  delete ctx backup_id w = Some (inr tt, w') ->
  (forall ctx',
     policy_enforce ctx' "backup:delete" = true ->
     policy_enforce ctx' "backup:get" = true ->
     delete ctx' backup_id w' =
     Some (inl (InvalidBackup "Backup status must be available or error"), w'))
  /\ (forall ctx' fuel destination,
        policy_enforce ctx' "backup:restore" = true ->
        policy_enforce ctx' "backup:get" = true ->
        restore fuel ctx' backup_id destination w' =
        Some (inl (InvalidBackup "Backup status must be available"), w')).
Proof.
  intros Hrun.
  destruct (delete_inv _ _ _ _ Hrun) as (b & _ & _ & Hbks & _).
  assert (backups (db w') !! backup_id =
          Some (Db.set_backup_status "deleting" b)) as Hb'
    by (rewrite Hbks; apply lookup_insert_eq).
  split.
  - intros ctx' Hd Hg. by apply (delete_busy_backup _ _ _ _ Hd Hg Hb').
  - intros ctx' fuel destination Hr Hg.
    by apply (restore_unavailable_backup _ _ _ _ _ _ Hr Hg Hb').
Qed.

(** *** The polling loop, from its outcome *)

Lemma wait_outcome fuel : forall ctx vid w r w',
  wait_while_creating fuel ctx vid w = Some (r, w') ->
  exists k,
    k < fuel /\ w' = slept_n k w
    /\ (forall j, j < k -> still_creating vid (slept_n j w) = true)
    /\ match r with
       | inr v => volumes (db w') !! vid = Some v /\ vol_status v <> "creating"
       | inl e => e = VolumeNotFound vid /\ volumes (db w') !! vid = None
       end.
Proof.
  induction fuel as [|fuel IH]; intros ctx vid w r w'; [discriminate|].
  rewrite wait_step.
  destruct (volumes (db w) !! vid) as [v|] eqn:Hv.
  - destruct (str_ne (vol_status v) "creating") eqn:Hs.
    + intros [= <- <-]. exists 0. simpl. apply str_ne_true in Hs.
      repeat split; [lia|intros j Hj; lia|assumption..].
    + intros Hrun. destruct (IH _ _ _ _ _ Hrun) as (k & Hk & -> & Hall & Hr).
      exists (S k). simpl. repeat split; [lia| |exact Hr].
      intros [|j] Hj; simpl.
      * apply still_creating_true. exists v. split; [exact Hv|].
        by apply str_ne_false.
      * apply Hall. lia.
  - intros [= <- <-]. exists 0. simpl.
    repeat split; [lia|intros j Hj; lia|assumption].
Qed.

(** *** [restore] without a destination, from its outcome *)

Lemma restore_created_cases fuel ctx backup_id w b size created d1 :
  policy_enforce ctx "backup:restore" = true ->
  policy_enforce ctx "backup:get" = true ->
  backups (db w) !! backup_id = Some b ->
  bk_status b = "available" ->
  bk_size b = Some size ->
  volume_api_create ctx size (String.append "restore_backup_" backup_id)
    "auto-created_from_restore_from_backup" (db w) = (inr created, d1) ->
  restore fuel ctx backup_id None w =
  match wait_while_creating fuel ctx (vol_id created)
          (created_in w size backup_id d1) with
  | None => None
  | Some (inl e, wk) => Some (inl e, wk)
  | Some (inr v, wk) => restore_onto backup_id b size v (vol_id created) wk
  end.
Proof.
  intros Hr Hg Hb Hav Hsize Hc. apply str_ne_false in Hav.
  rewrite (restore_eval _ _ _ _ _ _ Hr Hg Hb), Hav, Hsize.
  unfold bind at 1. rewrite (restore_target_created _ _ _ _ _ _ _ Hc).
  unfold bind.
  by destruct (wait_while_creating _ _ _ _) as [[[e|v] wk]|].
Qed.

Lemma restore_create_raises fuel ctx backup_id w b size e d1 :
  policy_enforce ctx "backup:restore" = true ->
  policy_enforce ctx "backup:get" = true ->
  backups (db w) !! backup_id = Some b ->
  bk_status b = "available" ->
  bk_size b = Some size ->
  volume_api_create ctx size (String.append "restore_backup_" backup_id)
    "auto-created_from_restore_from_backup" (db w) = (inl e, d1) ->
  restore fuel ctx backup_id None w =
  Some (inl e, created_in w size backup_id d1).
Proof.
  intros Hr Hg Hb Hav Hsize Hc. apply str_ne_false in Hav.
  rewrite (restore_eval _ _ _ _ _ _ Hr Hg Hb), Hav, Hsize.
  unfold bind at 1, restore_target. unfold bind at 1.
  unfold volume_api_create_call. by rewrite Hc.
Qed.

Lemma restore_onto_cases backup_id b size v volume_id w :
  volumes (db w) !! volume_id = Some v ->
  restore_onto backup_id b size v volume_id w =
  if str_ne (vol_status v) "available" then
    Some (inl (InvalidVolume "Volume to be restored to must be available"), w)
  else if (size >? vol_size v)%Z then
    Some (inl (InvalidVolume
            "Volume to be restored to is smaller than the backup to be restored"),
          w)
  else match backups (db w) !! backup_id with
       | None => Some (inl (BackupNotFound backup_id), w)
       | Some b' =>
           Some (inr (Reply backup_id volume_id),
                 MkWorld
                   (Store (<[volume_id :=
                               Db.set_volume_status "restoring-backup" v]>
                             (volumes (db w)))
                          (<[backup_id := Db.set_backup_status "restoring" b']>
                             (backups (db w)))
                          (services (db w)))
                   (clock w)
                   (trace w ++ [EvBackupUpdate backup_id "restoring";
                                EvVolumeUpdate volume_id "restoring-backup";
                                EvCast (bk_host b)
                                       (RestoreBackup (bk_id b) volume_id)]))
       end.
Proof.
  intros Hv.
  destruct (backups (db w) !! backup_id) as [b'|] eqn:Hb.
  - apply (restore_onto_eval _ _ _ _ _ _ _ _ Hb Hv).
  - unfold restore_onto.
    destruct (str_ne (vol_status v) "available"); [reflexivity|].
    destruct (size >? vol_size v)%Z; [reflexivity|].
    unfold Db.backup_update, bind, gets. simpl. by rewrite Hb.
Qed.

(** X10.  A [restore] with no destination that succeeds: the backup was
    [available] with a size; the volume API was asked for a volume of
    exactly that size, named after the backup; the reply names that volume;
    some poll, after [k] sleeps that each followed a poll seeing
    [creating], found it [available] and at least as large as the backup;
    and the backup and that volume were marked in the store as the other
    threads had left it, before the cast. *)
Theorem restore_created_success_frame fuel ctx backup_id w r w' :
  restore fuel ctx backup_id None w = Some (inr r, w') ->
  exists b size created d1 k v b',
    backups (db w) !! backup_id = Some b
    /\ bk_status b = "available" /\ bk_size b = Some size
    /\ volume_api_create ctx size (String.append "restore_backup_" backup_id)
         "auto-created_from_restore_from_backup" (db w) = (inr created, d1)
    /\ r = Reply backup_id (vol_id created)
    /\ k < fuel
    /\ (forall j, j < k ->
          still_creating (vol_id created)
            (slept_n j (created_in w size backup_id d1)) = true)
    /\ volumes (db (slept_n k (created_in w size backup_id d1)))
         !! vol_id created = Some v
    /\ vol_status v = "available" /\ (size <= vol_size v)%Z
    /\ backups (db (slept_n k (created_in w size backup_id d1)))
         !! backup_id = Some b'
    /\ backups (db w') =
       <[backup_id := Db.set_backup_status "restoring" b']>
         (backups (db (slept_n k (created_in w size backup_id d1))))
    /\ volumes (db w') =
       <[vol_id created := Db.set_volume_status "restoring-backup" v]>
         (volumes (db (slept_n k (created_in w size backup_id d1))))
    /\ clock w' = clock w + k
    /\ trace w' =
       (trace w ++
          EvVolumeCreate size (String.append "restore_backup_" backup_id)
            "auto-created_from_restore_from_backup"
          :: repeat (EvSleep 1) k ++
          [EvBackupUpdate backup_id "restoring";
           EvVolumeUpdate (vol_id created) "restoring-backup";
           EvCast (bk_host b) (RestoreBackup (bk_id b) (vol_id created))])%list.
Proof.
  rewrite restore_cases.
  destruct (policy_enforce ctx "backup:restore") eqn:Hr; [|discriminate].
  destruct (policy_enforce ctx "backup:get") eqn:Hg; [|discriminate].
  destruct (backups (db w) !! backup_id) as [b|] eqn:Hb; [|discriminate].
  destruct (decide (bk_status b = "available")) as [Hav|Hne]; cycle 1.
  { by rewrite (restore_unavailable_backup _ _ _ _ _ _ Hr Hg Hb Hne). }
  destruct (bk_size b) as [size|] eqn:Hsize; cycle 1.
  { rewrite (restore_eval _ _ _ _ _ _ Hr Hg Hb), Hsize.
    by destruct (str_ne _ _). }
  destruct (volume_api_create ctx size
              (String.append "restore_backup_" backup_id)
              "auto-created_from_restore_from_backup" (db w))
    as [[e|created] d1] eqn:Hc.
  { by rewrite (restore_create_raises _ _ _ _ _ _ _ _ Hr Hg Hb Hav Hsize Hc). }
  rewrite (restore_created_cases _ _ _ _ _ _ _ _ Hr Hg Hb Hav Hsize Hc).
  destruct (wait_while_creating _ _ _ _) as [[[e|v] wk]|] eqn:Hw;
    [discriminate| |discriminate].
  destruct (wait_outcome _ _ _ _ _ _ Hw) as (k & Hk & -> & Hall & Hv & Hs).
  rewrite (restore_onto_cases _ _ _ _ _ _ Hv).
  destruct (str_ne (vol_status v) "available") eqn:Hvs; [discriminate|].
  destruct (size >? vol_size v)%Z eqn:Hgt; [discriminate|].
  destruct (backups (db (slept_n k _)) !! backup_id) as [b'|] eqn:Hb';
    [|discriminate].
  intros [= <- <-].
  exists b, size, created, d1, k, v, b'. simpl.
  apply str_ne_false in Hvs.
  repeat (split; [first [assumption | reflexivity | lia]|]).
  split; [rewrite slept_n_clock; reflexivity|].
  rewrite slept_n_trace. simpl. rewrite <- !app_assoc. reflexivity.
Qed.

(** X11.  A [restore] that raises, with or without a destination, raises
    the exception of one of its checks and lookups or the one the volume
    API's [create] raised, and raises it before any status is updated and
    before the cast: all it can have added to the trace is the creation of
    the destination volume and the sleeps of its polls.  The writes of the
    record store on a row that was just read and the cast are taken not to
    fail. *)
Theorem failed_restore_marks_nothing fuel ctx backup_id volume_id w e w' :
  restore fuel ctx backup_id volume_id w = Some (inl e, w') ->
  (raised_by_a_check e
   \/ exists size d1,
        volume_api_create ctx size
          (String.append "restore_backup_" backup_id)
          "auto-created_from_restore_from_backup" (db w) = (inl e, d1))
  /\ exists added,
       trace w' = (trace w ++ added)%list
       /\ Forall (fun ev => match ev with
                            | EvVolumeCreate _ _ _ | EvSleep _ => True
                            | _ => False
                            end) added.
Proof.
  assert (forall w0 : World, exists added,
            trace w0 = (trace w0 ++ added)%list
            /\ Forall (fun ev => match ev with
                                 | EvVolumeCreate _ _ _ | EvSleep _ => True
                                 | _ => False
                                 end) added) as Hsame.
  { intros w0. exists []. by rewrite app_nil_r. }
  rewrite restore_cases.
  destruct (policy_enforce ctx "backup:restore") eqn:Hr;
    [|intros [= <- <-]; split; [by left|apply Hsame]].
  destruct (policy_enforce ctx "backup:get") eqn:Hg;
    [|intros [= <- <-]; split; [by left|apply Hsame]].
  destruct (backups (db w) !! backup_id) as [b|] eqn:Hb;
    [|intros [= <- <-]; split; [by left|apply Hsame]].
  destruct volume_id as [volume_id|].
  { rewrite (restore_given_cases _ _ _ _ _ _ Hr Hg Hb).
    repeat case_match; intros Hrun; try discriminate;
      injection Hrun as <- <-; (split; [by left|apply Hsame]). }
  destruct (decide (bk_status b = "available")) as [Hav|Hne]; cycle 1.
  { rewrite (restore_unavailable_backup _ _ _ _ _ _ Hr Hg Hb Hne).
    intros [= <- <-]. split; [by left|apply Hsame]. }
  destruct (bk_size b) as [size|] eqn:Hsize; cycle 1.
  { rewrite (restore_eval _ _ _ _ _ _ Hr Hg Hb), Hsize.
    destruct (str_ne _ _); intros [= <- <-]; (split; [by left|apply Hsame]). }
  assert (forall k,
    exists added,
      trace (slept_n k (created_in w size backup_id
                          (volume_api_create ctx size
                             (String.append "restore_backup_" backup_id)
                             "auto-created_from_restore_from_backup"
                             (db w)).2))
      = (trace w ++ added)%list
      /\ Forall (fun ev => match ev with
                           | EvVolumeCreate _ _ _ | EvSleep _ => True
                           | _ => False
                           end) added) as Hquiet.
  { intros k.
    exists (EvVolumeCreate size (String.append "restore_backup_" backup_id)
              "auto-created_from_restore_from_backup"
            :: repeat (EvSleep 1) k).
    split.
    - rewrite slept_n_trace. simpl. by rewrite <- app_assoc.
    - constructor; [done|]. apply Forall_forall. intros ev Hin.
      apply list_elem_of_In, repeat_spec in Hin; by subst ev. }
  destruct (volume_api_create ctx size
              (String.append "restore_backup_" backup_id)
              "auto-created_from_restore_from_backup" (db w))
    as [[e'|created] d1] eqn:Hc; simpl in Hquiet.
  { rewrite (restore_create_raises _ _ _ _ _ _ _ _ Hr Hg Hb Hav Hsize Hc).
    intros [= <- <-]. split; [right; eauto|apply (Hquiet 0)]. }
  rewrite (restore_created_cases _ _ _ _ _ _ _ _ Hr Hg Hb Hav Hsize Hc).
  destruct (wait_while_creating _ _ _ _) as [[[e'|v] wk]|] eqn:Hw;
    [| |discriminate];
    destruct (wait_outcome _ _ _ _ _ _ Hw) as (k & Hk & -> & Hall & Hv).
  - intros [= <- <-]. destruct Hv as [-> _].
    split; [by left|apply Hquiet].
  - destruct Hv as [Hv Hs]. rewrite (restore_onto_cases _ _ _ _ _ _ Hv).
    repeat case_match; intros Hrun; try discriminate;
      injection Hrun as <- <-; (split; [by left|apply Hquiet]).
Qed.

(** X12.  The second size check of [restore] can only fire for a volume
    that [restore] created itself: with a destination given it never raises
    the message of that check, because the first check has already refused
    every smaller volume; with none given it raises it when the volume API
    has handed out an [available] volume smaller than the backup. *)
Theorem restore_second_size_check fuel ctx backup_id w :
  (forall volume_id w',
     restore fuel ctx backup_id (Some volume_id) w <>
     Some (inl (InvalidVolume
             "Volume to be restored to is smaller than the backup to be restored"),
           w'))
  /\ (forall b size created d1 k v,
        policy_enforce ctx "backup:restore" = true ->
        policy_enforce ctx "backup:get" = true ->
        backups (db w) !! backup_id = Some b ->
        bk_status b = "available" ->
        bk_size b = Some size ->
        volume_api_create ctx size
          (String.append "restore_backup_" backup_id)
          "auto-created_from_restore_from_backup" (db w) = (inr created, d1) ->
        (forall j, j < k ->
           still_creating (vol_id created)
             (slept_n j (created_in w size backup_id d1)) = true) ->
        volumes (db (slept_n k (created_in w size backup_id d1)))
          !! vol_id created = Some v ->
        vol_status v = "available" -> (vol_size v < size)%Z ->
        k < fuel ->
        restore fuel ctx backup_id None w =
        Some (inl (InvalidVolume
                "Volume to be restored to is smaller than the backup to be restored"),
              slept_n k (created_in w size backup_id d1))).
Proof.
  split.
  - intros volume_id w'. rewrite restore_cases.
    destruct (policy_enforce ctx "backup:restore") eqn:Hr; [|discriminate].
    destruct (policy_enforce ctx "backup:get") eqn:Hg; [|discriminate].
    destruct (backups (db w) !! backup_id) as [b|] eqn:Hb; [|discriminate].
    rewrite (restore_given_cases _ _ _ _ _ _ Hr Hg Hb).
    repeat case_match; discriminate.
  - intros b size created d1 k v Hr Hg Hb Hav Hsize Hc Hall Hv Hvs Hlt Hk.
    rewrite (restore_created_cases _ _ _ _ _ _ _ _ Hr Hg Hb Hav Hsize Hc).
    rewrite (wait_settles k _ _ _ _ Hall); [|
      apply (still_creating_settled _ _ v Hv); by rewrite Hvs | exact Hk].
    rewrite Hv, (restore_onto_cases _ _ _ _ _ _ Hv).
    apply str_ne_false in Hvs. rewrite Hvs.
    assert ((size >? vol_size v)%Z = true) as -> by lia. reflexivity.
Qed.

End BackupCalls.

(** * Further properties of the quota-set controller *)

Section QuotaCalls.
Context `{QuotaSets.QuotaEngine}.
Import QuotaSets.

Lemma validated_int limit :
  _validate_quota_limit limit = inr tt ->
  py_int limit = inr (int_value limit) /\ (-1 <= int_value limit)%Z.
Proof.
  intros Hv. apply validate_accepts in Hv as [Hint Hge]. split; [|exact Hge].
  by destruct limit.
Qed.

Lemma validate_cases limit :
  _validate_quota_limit limit = inr tt
  \/ exists explanation,
       _validate_quota_limit limit = inl (HTTPBadRequest explanation).
Proof.
  unfold _validate_quota_limit.
  destruct (isinstance_int limit); simpl; [|eauto].
  destruct (int_value limit <? -1)%Z; eauto.
Qed.

(** One key, handled for an administrator and for anybody else. *)
Lemma update_key_admin ctx project key limit q :
  is_admin ctx = true ->
  update_key ctx project key limit q =
  if in_QUOTAS key then
    match _validate_quota_limit limit with
    | inl e => inl e
    | inr _ => inr (<[(project, key) := int_value limit]> q)
    end
  else inr q.
Proof.
  intros Hadmin. unfold update_key.
  destruct (in_QUOTAS key); [|reflexivity].
  destruct (_validate_quota_limit limit) as [e|[]] eqn:Hv; [reflexivity|].
  destruct (validated_int _ Hv) as [-> _].
  unfold quota_update, quota_create. rewrite Hadmin. simpl.
  by destruct (q !! (project, key)).
Qed.

Lemma update_key_member ctx project key limit q :
  is_admin ctx = false ->
  update_key ctx project key limit q =
  if in_QUOTAS key then
    match _validate_quota_limit limit with
    | inl e => inl e
    | inr _ => inl HTTPForbidden
    end
  else inr q.
Proof.
  intros Hadmin. unfold update_key.
  destruct (in_QUOTAS key); [|reflexivity].
  destruct (_validate_quota_limit limit) as [e|[]] eqn:Hv; [reflexivity|].
  destruct (validated_int _ Hv) as [-> _].
  unfold quota_update. by rewrite Hadmin.
Qed.

Lemma update_key_writes ctx project key limit q q' :
  update_key ctx project key limit q = inr q' ->
  q' = q
  \/ (in_QUOTAS key = true /\ (-1 <= int_value limit)%Z
      /\ q' = <[(project, key) := int_value limit]> q).
Proof.
  destruct (is_admin ctx) eqn:Hadmin.
  - rewrite (update_key_admin _ _ _ _ _ Hadmin).
    destruct (in_QUOTAS key); [|intros [= <-]; by left].
    destruct (_validate_quota_limit limit) as [e|[]] eqn:Hv; [discriminate|].
    intros [= <-]. right. destruct (validated_int _ Hv) as [_ Hge]. done.
  - rewrite (update_key_member _ _ _ _ _ Hadmin).
    destruct (in_QUOTAS key); [|intros [= <-]; by left].
    by destruct (_validate_quota_limit limit) as [e|[]].
Qed.

(** X13.  Whether it succeeds or fails part-way, [update] leaves every row
    of another project alone, and every row of this project whose resource
    is not a known key of the body. *)
Theorem update_touches_only_named_rows ctx project quota_set q p k :
  p <> project
  \/ ~ (exists limit, In (k, limit) quota_set /\ in_QUOTAS k = true) ->
  (update ctx project quota_set q).2 !! (p, k) = q !! (p, k).
Proof.
  intros Hother.
  assert ((update_keys ctx project quota_set q).2 !! (p, k) = q !! (p, k))
    as Hkeys.
  { revert q. induction quota_set as [|[key limit] rest IH]; intros q;
      simpl; [reflexivity|].
    destruct (update_key ctx project key limit q) as [e|q1] eqn:Hstep;
      [reflexivity|].
    rewrite IH; cycle 1.
    { destruct Hother as [Hp|Hk]; [by left|right].
      intros (l & Hin & Hknown). apply Hk. exists l. split; [by right|done]. }
    destruct (update_key_writes _ _ _ _ _ _ Hstep)
      as [-> | (Hknown & _ & ->)]; [reflexivity|].
    apply lookup_insert_ne. intros [= <- <-].
    destruct Hother as [Hp|Hk]; [done|].
    apply Hk. exists limit. split; [by left|done]. }
  unfold update. destruct (authorize ctx "quotas:update"); [|reflexivity].
  simpl. destruct (update_keys ctx project quota_set q) as [[e|[]] q'];
    exact Hkeys.
Qed.

(** X14.  [update] never stores a limit below [-1]: a table all of whose
    limits are at least [-1] is still so after any update, successful or
    not. *)
Theorem update_keeps_limits_valid ctx project quota_set q :
  map_Forall (fun _ hard_limit => (-1 <= hard_limit)%Z) q ->
  map_Forall (fun _ hard_limit => (-1 <= hard_limit)%Z)
             (update ctx project quota_set q).2.
Proof.
  intros Hq.
  assert (map_Forall (fun _ hard_limit => (-1 <= hard_limit)%Z)
                     (update_keys ctx project quota_set q).2) as Hkeys.
  { revert q Hq. induction quota_set as [|[key limit] rest IH]; intros q Hq;
      simpl; [exact Hq|].
    destruct (update_key ctx project key limit q) as [e|q1] eqn:Hstep;
      [exact Hq|].
    apply IH.
    destruct (update_key_writes _ _ _ _ _ _ Hstep)
      as [-> | (_ & Hge & ->)]; [exact Hq|].
    by apply map_Forall_insert_2. }
  unfold update. destruct (authorize ctx "quotas:update"); [|exact Hq].
  simpl. destruct (update_keys ctx project quota_set q) as [[e|[]] q'];
    exact Hkeys.
Qed.

Lemma update_by_member_writes_nothing_keys ctx project quota_set q :
  is_admin ctx = false -> (update_keys ctx project quota_set q).2 = q.
Proof.
  intros Hadmin.
  induction quota_set as [|[key limit] rest IH]; simpl; [reflexivity|].
  rewrite (update_key_member _ _ _ _ _ Hadmin).
  destruct (in_QUOTAS key); [|exact IH].
  by destruct (_validate_quota_limit limit) as [e|[]].
Qed.

(** X15.  A caller who is not an administrator never writes: whatever the
    body, the table is unchanged.  When the authorizer lets the caller
    through, a body with no known key is answered with the current quota
    set, and otherwise the first known key decides: [HTTPForbidden] when
    its limit is valid, [HTTPBadRequest] when it is not. *)
Theorem update_by_member_writes_nothing ctx project quota_set q :
  is_admin ctx = false ->
  (update ctx project quota_set q).2 = q
  /\ (authorize ctx "quotas:update" = true ->
      (Forall (fun kv => in_QUOTAS kv.1 = false) quota_set ->
         update ctx project quota_set q =
         (inr (_get_quotas ctx project q), q))
      /\ (forall pre key limit post,
            quota_set = (pre ++ (key, limit) :: post)%list ->
            Forall (fun kv => in_QUOTAS kv.1 = false) pre ->
            in_QUOTAS key = true ->
            (_validate_quota_limit limit = inr tt ->
               update ctx project quota_set q = (inl HTTPForbidden, q))
            /\ (_validate_quota_limit limit <> inr tt ->
                exists explanation,
                  update ctx project quota_set q =
                  (inl (HTTPBadRequest explanation), q)))).
Proof.
  intros Hadmin.
  assert (forall l, (update_keys ctx project l q).2 = q) as Hsame.
  { induction l as [|[key limit] rest IH]; simpl; [reflexivity|].
    rewrite (update_key_member _ _ _ _ _ Hadmin).
    destruct (in_QUOTAS key); [|exact IH].
    by destruct (_validate_quota_limit limit) as [e|[]]. }
  assert (forall l, Forall (fun kv => in_QUOTAS kv.1 = false) l ->
            update_keys ctx project l q = (inr tt, q)) as Hskip.
  { induction l as [|[key limit] rest IH]; simpl; [reflexivity|].
    intros Hl. inversion Hl as [|? ? Hk Hrest]; subst. simpl in Hk.
    unfold update_key. rewrite Hk. by apply IH. }
  split.
  - unfold update. destruct (authorize ctx "quotas:update"); [|reflexivity].
    simpl. specialize (Hsame quota_set).
    by destruct (update_keys ctx project quota_set q) as [[e|[]] q'].
  - intros Hauth. split.
    + intros Hl. unfold update. rewrite Hauth. simpl. by rewrite (Hskip _ Hl).
    + intros pre key limit post -> Hpre Hknown.
      unfold update. rewrite Hauth. simpl.
      rewrite update_keys_app, (Hskip _ Hpre). simpl.
      rewrite (update_key_member _ _ _ _ _ Hadmin), Hknown. split.
      * by intros ->.
      * intros Hbad. destruct (validate_cases limit) as [|[x ->]]; [done|].
        eauto.
Qed.

Lemma update_keys_frame ctx project quota_set q key :
  ~ In key quota_set.*1 ->
  (update_keys ctx project quota_set q).2 !! (project, key)
  = q !! (project, key).
Proof.
  revert q. induction quota_set as [|[k limit] rest IH]; intros q Hnot;
    simpl in *; [reflexivity|].
  destruct (update_key ctx project k limit q) as [e|q1] eqn:Hstep;
    [reflexivity|].
  rewrite IH by tauto.
  destruct (update_key_writes _ _ _ _ _ _ Hstep) as [-> | (_ & _ & ->)];
    [reflexivity|].
  apply lookup_insert_ne. intros [= <-]. tauto.
Qed.

Lemma update_keys_admin_valid ctx project quota_set q :
  is_admin ctx = true ->
  (exists q', update_keys ctx project quota_set q = (inr tt, q')) <->
  Forall (fun kv => in_QUOTAS kv.1 = true ->
                    _validate_quota_limit kv.2 = inr tt) quota_set.
Proof.
  intros Hadmin. revert q.
  induction quota_set as [|[key limit] rest IH]; intros q; simpl.
  - split; [constructor | eauto].
  - rewrite (update_key_admin _ _ _ _ _ Hadmin).
    destruct (in_QUOTAS key) eqn:Hknown.
    + destruct (_validate_quota_limit limit) as [e|[]] eqn:Hv.
      * split; [intros (? & [=])|].
        intros Hall. inversion Hall as [|? ? Hhead _]; subst.
        simpl in Hhead. rewrite Hv in Hhead. by specialize (Hhead Hknown).
      * rewrite IH. split; [intros Hrest|intros Hall].
        -- constructor; [by simpl|exact Hrest].
        -- by inversion Hall.
    + rewrite IH. split; [intros Hrest|intros Hall].
      * constructor; [simpl; congruence|exact Hrest].
      * by inversion Hall.
Qed.

Lemma update_keys_admin_stored ctx project quota_set q q' :
  is_admin ctx = true ->
  NoDup quota_set.*1 ->
  update_keys ctx project quota_set q = (inr tt, q') ->
  forall key limit,
    In (key, limit) quota_set -> in_QUOTAS key = true ->
    q' !! (project, key) = Some (int_value limit).
Proof.
  intros Hadmin. revert q.
  induction quota_set as [|[k l] rest IH]; intros q Hnodup Hrun key limit Hin
    Hknown; simpl in *; [done|].
  apply NoDup_cons in Hnodup as [Hfresh Hnodup].
  rewrite (update_key_admin _ _ _ _ _ Hadmin) in Hrun.
  destruct Hin as [[= -> ->] | Hin].
  - rewrite Hknown in Hrun.
    destruct (_validate_quota_limit limit) as [e|[]]; [discriminate|].
    pose proof (update_keys_frame ctx project rest
                  (<[(project, key) := int_value limit]> q) key) as Hframe.
    rewrite Hrun in Hframe. simpl in Hframe. rewrite Hframe.
    + apply lookup_insert_eq.
    + intros Hk. apply Hfresh. by apply list_elem_of_In.
  - destruct (in_QUOTAS k).
    + destruct (_validate_quota_limit l) as [e|[]]; [discriminate|].
      by apply (IH _ Hnodup Hrun).
    + by apply (IH _ Hnodup Hrun).
Qed.

Lemma update_keys_admin_settled ctx project quota_set t :
  is_admin ctx = true ->
  Forall (fun kv => in_QUOTAS kv.1 = true ->
                    _validate_quota_limit kv.2 = inr tt
                    /\ t !! (project, kv.1) = Some (int_value kv.2))
         quota_set ->
  update_keys ctx project quota_set t = (inr tt, t).
Proof.
  intros Hadmin Hall. induction Hall as [|[key limit] rest Hhead _ IH];
    simpl; [reflexivity|].
  rewrite (update_key_admin _ _ _ _ _ Hadmin).
  simpl in Hhead. destruct (in_QUOTAS key); [|exact IH].
  destruct (Hhead eq_refl) as [-> Hrow].
  by rewrite (insert_id _ _ _ Hrow).
Qed.

(** X16.  For an administrator whom the authorizer lets through, [update]
    succeeds exactly when every known key of the body carries a valid
    limit; it then answers with the quota set read from the table it
    leaves, in which every known key of the body (a dictionary: no key
    twice) holds the integer of its limit, whether its row existed before
    or not. *)
Theorem update_by_admin_succeeds_iff_valid ctx project quota_set q :
  is_admin ctx = true ->
  authorize ctx "quotas:update" = true ->
  ((exists r q', update ctx project quota_set q = (inr r, q')) <->
   Forall (fun kv => in_QUOTAS kv.1 = true ->
                     _validate_quota_limit kv.2 = inr tt) quota_set)
  /\ (forall r q',
        update ctx project quota_set q = (inr r, q') ->
        r = _get_quotas ctx project q'
        /\ (NoDup quota_set.*1 ->
            forall key limit,
              In (key, limit) quota_set -> in_QUOTAS key = true ->
              q' !! (project, key) = Some (int_value limit))).
Proof.
  intros Hadmin Hauth. unfold update. rewrite Hauth. simpl. split.
  - rewrite <- (update_keys_admin_valid ctx project quota_set q Hadmin).
    destruct (update_keys ctx project quota_set q) as [[e|[]] q1].
    + split; [intros (? & ? & [=]) | intros (? & [=])].
    + split; eauto.
  - intros r q'.
    destruct (update_keys ctx project quota_set q) as [[e|[]] q1] eqn:Hrun;
      [discriminate|].
    intros [= <- <-]. split; [reflexivity|].
    intros Hnodup.
    exact (update_keys_admin_stored _ _ _ _ _ Hadmin Hnodup Hrun).
Qed.

(** X17.  [update] is idempotent: sending a body (a dictionary: no key
    twice) that was accepted once more, on the table the first update left,
    is accepted with the same answer and leaves that table as it is. *)
Theorem update_twice_is_update_once ctx project quota_set q r q' :
  NoDup quota_set.*1 ->
  update ctx project quota_set q = (inr r, q') ->
  update ctx project quota_set q' = (inr r, q').
Proof.
  intros Hnodup Hrun.
  destruct (is_admin ctx) eqn:Hadmin; cycle 1.
  { pose proof (update_by_member_writes_nothing_keys ctx project quota_set q
                  Hadmin) as Hsame.
    unfold update in Hrun |- *.
    destruct (authorize ctx "quotas:update"); [|discriminate]. simpl in *.
    destruct (update_keys ctx project quota_set q) as [[e|[]] q1] eqn:Hk;
      [discriminate|].
    injection Hrun as <- <-. simpl in Hsame. subst q1. by rewrite Hk. }
  unfold update in Hrun |- *.
  destruct (authorize ctx "quotas:update"); [|discriminate]. simpl in *.
  destruct (update_keys ctx project quota_set q) as [[e|[]] q1] eqn:Hk;
    [discriminate|].
  injection Hrun as <- <-.
  rewrite (update_keys_admin_settled ctx project quota_set q1 Hadmin);
    [reflexivity|].
  assert (Forall (fun kv => in_QUOTAS kv.1 = true ->
                            _validate_quota_limit kv.2 = inr tt) quota_set)
    as Hvalid by (apply (update_keys_admin_valid ctx project quota_set q Hadmin);
                  eauto).
  apply Forall_forall. intros [key limit] Hin Hknown. simpl in *.
  split.
  - rewrite Forall_forall in Hvalid. by apply (Hvalid (key, limit)).
  - apply (update_keys_admin_stored _ _ _ _ _ Hadmin Hnodup Hk);
      [by apply list_elem_of_In|done].
Qed.

End QuotaCalls.

(** * The further properties on the concrete deployments *)

Import BackupAPI QuotaSets Scenario.


Lemma get_permission_witness :
  delete (H:=no_get) ctx0 "b1" w0 =
    Some (inl (PolicyNotAuthorized "backup:get"), w0)
  /\ forall fuel volume_id,
       restore (H:=no_get) fuel ctx0 "b1" volume_id w0 =
       Some (inl (PolicyNotAuthorized "backup:get"), w0).
Proof.
  destruct (get_permission_guards_delete_and_restore (H:=no_get) ctx0 "b1" w0
              eq_refl) as [Hdelete Hrestore].
  split; [exact (Hdelete eq_refl) | exact (Hrestore eq_refl)].
Defined.

Lemma delete_marks_witness :
  exists w',
    delete (H:=idle) ctx0 "b1" w0 = Some (inr tt, w')
    /\ backups (db w') =
       <[ "b1" := Db.set_backup_status "deleting" b1 ]> (backups (db w0))
    /\ volumes (db w') = volumes (db w0)
    /\ services (db w') = services (db w0)
    /\ clock w' = clock w0
    /\ trace w' =
       (trace w0 ++ [EvBackupUpdate "b1" "deleting";
                     EvCast (bk_host b1) (DeleteBackup (bk_id b1))])%list.
Proof.
  apply (proj2 (delete_marks_then_casts (H:=idle) ctx0 "b1" w0 b1
                  eq_refl eq_refl eq_refl)).
  left. reflexivity.
Defined.

Lemma create_frame_witness :
  exists b w',
    create (H:=idle) ctx0 "nightly" "" "v1" None None w0 = Some (inr b, w')
    /\ clock w' = clock w0
    /\ bk_display_name b = "nightly".
Proof.
  eexists _, _.
  match goal with
  | |- ?run /\ _ => assert run as Hrun by (vm_compute; reflexivity)
  end.
  split; [exact Hrun|].
  destruct (create_success_frame (H:=idle)
              ctx0 "nightly" "" "v1" None None w0 _ _ Hrun)
    as (v & _ & _ & _ & _ & _ & _ & Hclock & _ & _ & Hname & _).
  split; assumption.
Defined.

Lemma restore_given_frame_witness :
  exists r w',
    restore (H:=idle) 0 ctx0 "b1" (Some "v1") w0 = Some (inr r, w')
    /\ r = Reply "b1" "v1".
Proof.
  eexists _, _.
  match goal with
  | |- ?run /\ _ => assert run as Hrun by (vm_compute; reflexivity)
  end.
  split; [exact Hrun|].
  exact (proj1 (restore_given_success_frame (H:=idle)
                  0 ctx0 "b1" "v1" w0 _ _ Hrun)).
Defined.

Lemma create_locks_witness :
  exists b w',
    create (H:=idle) ctx0 "nightly" "" "v1" None None w0 = Some (inr b, w')
    /\ create (H:=idle) ctx0 "again" "" "v1" None None w' =
       Some (inl (InvalidVolume "Volume to be backed up must be available"),
             w').
Proof.
  eexists _, _.
  match goal with
  | |- ?run /\ _ => assert run as Hrun by (vm_compute; reflexivity)
  end.
  split; [exact Hrun|].
  exact (proj1 (create_locks_volume_and_backup (H:=idle)
                  ctx0 "nightly" "" "v1" None None w0 _ _ Hrun)
               "again" "" None None).
Defined.

Lemma restore_locks_witness :
  exists r w',
    restore (H:=idle) 0 ctx0 "b1" (Some "v1") w0 = Some (inr r, w')
    /\ delete (H:=idle) ctx0 "b1" w' =
       Some (inl (InvalidBackup "Backup status must be available or error"),
             w').
Proof.
  eexists _, _.
  match goal with
  | |- ?run /\ _ => assert run as Hrun by (vm_compute; reflexivity)
  end.
  split; [exact Hrun|].
  exact (proj1 (proj2 (restore_locks_backup_and_volume (H:=idle)
                         0 ctx0 "b1" "v1" w0 _ _ Hrun))
               ctx0 eq_refl eq_refl).
Defined.

Lemma delete_locks_witness :
  exists w',
    delete (H:=idle) ctx0 "b1" w0 = Some (inr tt, w')
    /\ forall fuel destination,
         restore (H:=idle) fuel ctx0 "b1" destination w' =
         Some (inl (InvalidBackup "Backup status must be available"), w').
Proof.
  eexists.
  match goal with
  | |- ?run /\ _ => assert run as Hrun by (vm_compute; reflexivity)
  end.
  split; [exact Hrun|].
  intros fuel destination.
  exact (proj2 (delete_locks_backup (H:=idle) ctx0 "b1" w0 _ Hrun)
               ctx0 fuel destination eq_refl eq_refl).
Defined.

Lemma restore_created_frame_witness :
  exists r w',
    restore (H:=building 2 "available") 4 ctx0 "b1" None w0
      = Some (inr r, w')
    /\ exists created k,
         r = Reply "b1" (vol_id created) /\ k < 4
         /\ clock w' = clock w0 + k.
Proof.
  eexists _, _.
  match goal with
  | |- ?run /\ _ => assert run as Hrun by (vm_compute; reflexivity)
  end.
  split; [exact Hrun|].
  destruct (restore_created_success_frame (H:=building 2 "available")
              4 ctx0 "b1" w0 _ _ Hrun)
    as (b & size & created & d1 & k & v & b' & _ & _ & _ & _ & Hr & Hk & _ & _
        & _ & _ & _ & _ & _ & Hclock & _).
  exists created, k. repeat split; assumption.
Defined.

Lemma failed_restore_witness :
  exists e w' added,
    restore (H:=building 0 "error") 3 ctx0 "b1" None w0 = Some (inl e, w')
    /\ trace w' = (trace w0 ++ added)%list
    /\ Forall (fun ev => match ev with
                         | EvVolumeCreate _ _ _ | EvSleep _ => True
                         | _ => False
                         end) added.
Proof.
  eexists _, _.
  assert (forall (e : exn) (w' : World),
            restore (H:=building 0 "error") 3 ctx0 "b1" None w0
              = Some (inl e, w') ->
            exists added,
              restore (H:=building 0 "error") 3 ctx0 "b1" None w0
                = Some (inl e, w')
              /\ trace w' = (trace w0 ++ added)%list
              /\ Forall (fun ev => match ev with
                                   | EvVolumeCreate _ _ _ | EvSleep _ => True
                                   | _ => False
                                   end) added) as Hfrom.
  { intros e w' Hrun.
    destruct (failed_restore_marks_nothing (H:=building 0 "error")
                3 ctx0 "b1" None w0 e w' Hrun) as (_ & added & Htr & Hall).
    exists added. repeat split; assumption. }
  apply Hfrom. vm_compute. reflexivity.
Defined.

Lemma restore_second_check_witness :
  restore (H:=stingy) 1 ctx0 "b1" None w0 =
  Some (inl (InvalidVolume
          "Volume to be restored to is smaller than the backup to be restored"),
        slept_n (H:=stingy) 0
          (created_in w0 1 "b1"
             (Db.put_volume (Volume "v-new" "available" 0 "" "nova") db0))).
Proof.
  apply (proj2 (restore_second_size_check (H:=stingy) 1 ctx0 "b1" w0)
           b1 1%Z (Volume "v-new" "available" 0 "" "nova")
           (Db.put_volume (Volume "v-new" "available" 0 "" "nova") db0)
           0 (Volume "v-new" "available" 0 "" "nova")
           eq_refl eq_refl eq_refl eq_refl eq_refl eq_refl);
    [intros j Hj; lia | reflexivity | reflexivity | simpl; lia | lia].
Defined.

Lemma update_frame_witness :
  (update (H:=engine) ctx0 "project" [("volumes", PyInt 5)] quotas0).2
    !! ("project", "gigabytes") = quotas0 !! ("project", "gigabytes").
Proof.
  apply (update_touches_only_named_rows (H:=engine)).
  right. intros (limit & [[= ? ?]|[]] & _).
Defined.

Lemma update_limits_witness :
  map_Forall (fun _ hard_limit => (-1 <= hard_limit)%Z)
    (update (H:=engine) ctx0 "project" [("volumes", PyInt 5)] quotas0).2.
Proof.
  apply (update_keeps_limits_valid (H:=engine)).
  unfold quotas0.
  apply map_Forall_insert_2; [lia|].
  apply map_Forall_insert_2; [lia|]. apply map_Forall_empty.
Defined.

Lemma update_member_witness :
  (update (H:=engine) member "project" [("volumes", PyInt 5)] quotas0).2
  = quotas0.
Proof.
  exact (proj1 (update_by_member_writes_nothing (H:=engine)
                  member "project" [("volumes", PyInt 5)] quotas0 eq_refl)).
Defined.

Lemma update_admin_witness :
  exists r q',
    update (H:=engine) ctx0 "project"
      [("volumes", PyInt 5); ("backups", PyStr "many")] quotas0 = (inr r, q').
Proof.
  apply (proj1 (update_by_admin_succeeds_iff_valid (H:=engine) ctx0 "project"
                  [("volumes", PyInt 5); ("backups", PyStr "many")] quotas0
                  eq_refl eq_refl)).
  repeat constructor; simpl; discriminate.
Defined.

Lemma update_twice_witness :
  update (H:=engine) ctx0 "project" [("snapshots", PyInt 7)]
    (<[("project", "snapshots") := 7%Z]> quotas0)
  = (inr [("volumes", 10%Z); ("snapshots", 7%Z); ("gigabytes", 1000%Z)],
     <[("project", "snapshots") := 7%Z]> quotas0).
Proof.
  apply (update_twice_is_update_once (H:=engine) ctx0 "project"
           [("snapshots", PyInt 7)] quotas0).
  - repeat constructor. intros Hin. inversion Hin.
  - reflexivity.
Defined.
